(** * Next Asia Link company agent: URL collector page and webhook relay

    A shallow embedding of [src/app/page.tsx] (the client form) and of the
    relay handler [POST] of [/api/submit], with the properties of the
    repository's specification proved over it.

    JavaScript strings are sequences of UTF-16 code units; they are modelled
    as [list N].  Values of type [unknown] that come out of [JSON.parse] are
    modelled by the inductive type [JValue]. *)

From Stdlib Require Import NArith ZArith Ascii String DecimalString.
From stdpp Require Import base tactics numbers option list sets.

Local Open Scope N_scope.

(** ** JavaScript strings *)

Definition jsstring : Type := list N.

(** Source literals are written in UTF-8; [utf16Units] reads the bytes of a
    literal as the code units the JavaScript engine sees. *)
Fixpoint utf16Units (bs : list N) : jsstring :=
  match bs with
  | [] => []
  | b0 :: r0 =>
    if b0 <? 128 then b0 :: utf16Units r0
    else if b0 <? 224 then
      match r0 with
      | b1 :: r1 => ((b0 - 192) * 64 + (b1 - 128)) :: utf16Units r1
      | _ => []
      end
    else if b0 <? 240 then
      match r0 with
      | b1 :: b2 :: r2 =>
        ((b0 - 224) * 4096 + (b1 - 128) * 64 + (b2 - 128)) :: utf16Units r2
      | _ => []
      end
    else
      match r0 with
      | b1 :: b2 :: b3 :: r3 =>
        let cp := (b0 - 240) * 262144 + (b1 - 128) * 4096
                  + (b2 - 128) * 64 + (b3 - 128) in
        let v := cp - 65536 in
        (55296 + v / 1024) :: (56320 + v mod 1024) :: utf16Units r3
      | _ => []
      end
  end.

Definition lit (s : string) : jsstring :=
  utf16Units (map N_of_ascii (list_ascii_of_string s)).

(** The double quote, which a literal of this file cannot hold. *)
Definition dquote : jsstring := [34].

(** [String(n)] for a non-negative integer [n], as in [`${idx + 1}`]. *)
Definition decimal (n : nat) : jsstring :=
  lit (NilZero.string_of_uint (Nat.to_uint n)).

(** WhiteSpace and LineTerminator code units, the ones [trim] strips. *)
Definition isWhiteSpace (c : N) : bool :=
  existsb (N.eqb c)
    [9; 10; 11; 12; 13; 32; 160; 5760; 8232; 8233; 8239; 8287; 12288; 65279]
  || ((8192 <=? c) && (c <=? 8202)).

Fixpoint trimStart (s : jsstring) : jsstring :=
  match s with
  | [] => []
  | c :: r => if isWhiteSpace c then trimStart r else s
  end.

Definition trimEnd (s : jsstring) : jsstring :=
  reverse (trimStart (reverse s)).

Definition trim (s : jsstring) : jsstring := trimEnd (trimStart s).

(** Truthiness of a string: only the empty string is falsy. *)
Definition truthy (s : jsstring) : bool :=
  match s with [] => false | _ => true end.

(** Equality of code units up to ASCII case, for a lower-case letter [l];
    without the [u] flag the [i] flag folds no other code unit onto an
    ASCII letter. *)
Definition ieq (l c : N) : bool := (c =? l) || (c =? l - 32).

(** [/^https?:\/\//i.test(v)] *)
Definition hasScheme (v : jsstring) : bool :=
  match v with
  | h :: t1 :: t2 :: p :: r =>
    ieq 104 h && ieq 116 t1 && ieq 116 t2 && ieq 112 p &&
    match r with
    | 58 :: 47 :: 47 :: _ => true
    | s :: 58 :: 47 :: 47 :: _ => ieq 115 s
    | _ => false
    end
  | _ => false
  end.

(** [normalizeUrl] of page.tsx. *)
Definition normalizeUrl (input : jsstring) : jsstring :=
  let v := trim input in
  if negb (truthy v) then []
  else if negb (hasScheme v) then lit "https://" ++ v
  else v.

(** ** Values of type [unknown]

    JavaScript numbers are IEEE doubles; the program only moves them around,
    prints them ([String]) and reads them from strings ([Number]), so they
    are kept abstract together with these conversions. *)

Class Numbers := {
  number : Type;
  numberToString : number → jsstring;
  toNumber : jsstring → number;
  numberIsNaN : number → bool
}.

#[warnings="-register-all"]
Inductive JValue `{Numbers} : Type :=
| JNull
| JBool (b : bool)
| JNum (n : number)
| JStr (s : jsstring)
| JArr (items : list JValue)
| JObj (fields : list (jsstring * JValue)).

(** The built-ins of the host that the program calls: [JSON.parse] (with
    [None] for a thrown SyntaxError), the [URL] constructor (with [false]
    when it throws), and the message of the TypeError that [String(v)]
    throws on a value it cannot turn into a primitive. *)
Class Platform `{Numbers} := {
  JSON_parse : jsstring → option JValue;
  URL_constructs : jsstring → bool;
  typeErrorMessage : jsstring
}.

(** How a call ends: it returns a value, or it throws an error with some
    message. *)
Inductive Completion (A : Type) : Type :=
| Returned (a : A)
| Thrown (msg : jsstring).

Arguments Returned {A} a.
Arguments Thrown {A} msg.

(** [f] on every element in turn, with [None] as soon as one gives none. *)
Definition traverse {A B : Type} (f : A → option B)
  : list A → option (list B) :=
  fix go (l : list A) : option (list B) :=
    match l with
    | [] => Some []
    | x :: r =>
      match f x with
      | Some y =>
        match go r with
        | Some ys => Some (y :: ys)
        | None => None
        end
      | None => None
      end
    end.

(** The source of identifiers: [randomId n] is what the [n]-th call of
    [uid()], that is [Math.random().toString(36).slice(2, 10)], returns. *)
Class Entropy := { randomId : nat → jsstring }.

Section Code.
Context {numbers : Numbers} {platform : Platform} {entropy : Entropy}.

Fixpoint joinWith (sep : jsstring) (l : list jsstring) : jsstring :=
  match l with
  | [] => []
  | [x] => x
  | x :: r => x ++ sep ++ joinWith sep r
  end.

(** The properties of an object are listed with their keys, each key
    once; [field] finds the value of a key. *)
Fixpoint field (k : jsstring) (fs : list (jsstring * JValue))
  : option JValue :=
  match fs with
  | [] => None
  | (k', v) :: r => if bool_decide (k' = k) then Some v else field k r
  end.

(** [String(v)] on a decoded JSON value, with [None] when it throws a
    TypeError.  An object is printed by [Object.prototype.toString] unless
    it has a property [toString] of its own: a decoded value is no
    function, so that neither it nor [valueOf] yields a primitive, and
    [String] throws.  An array is joined with commas, its elements printed
    in the same way, null as the empty string. *)
Fixpoint toStr (v : JValue) : option jsstring :=
  match v with
  | JNull => Some (lit "null")
  | JBool b => Some (if b then lit "true" else lit "false")
  | JNum n => Some (numberToString n)
  | JStr s => Some s
  | JArr items =>
    match traverse (λ e, match e with JNull => Some [] | _ => toStr e end)
                   items with
    | Some pieces => Some (joinWith (lit ",") pieces)
    | None => None
    end
  | JObj fs =>
    match field (lit "toString") fs with
    | Some _ => None
    | None => Some (lit "[object Object]")
    end
  end.

(** [asObject]: arrays are objects too and are returned as they are. *)
Definition asObject (value : JValue) : JValue :=
  match value with
  | JObj _ | JArr _ => value
  | _ => JObj []
  end.

(** [obj[k]] for the keys the program reads ([message], [details],
    [status], [body], [app], [created_at], [urls]); an array has none of
    them, [None] is [undefined]. *)
Definition prop (obj : JValue) (k : jsstring) : option JValue :=
  match obj with
  | JObj fs => field k fs
  | _ => None
  end.

(** [getString] (page.tsx) and [asString] (route.ts). *)
Definition getString (value : option JValue) : option jsstring :=
  match value with
  | Some (JStr s) => Some s
  | _ => None
  end.

Definition asString := getString.

(** [getStringArray] (page.tsx) and [asStringArray] (route.ts): what
    [String] throws on an element is thrown on. *)
Definition getStringArray (value : option JValue)
  : Completion (option (list jsstring)) :=
  match value with
  | Some (JArr items) =>
    match traverse toStr items with
    | Some strings => Returned (Some strings)
    | None => Thrown typeErrorMessage
    end
  | _ => Returned None
  end.

Definition asStringArray := getStringArray.

Definition getNumber (value : option JValue) : option number :=
  match value with
  | Some (JNum n) => Some n
  | Some (JStr s) =>
    if truthy (trim s) && negb (numberIsNaN (toNumber s))
    then Some (toNumber s) else None
  | _ => None
  end.

(** ** The lenient response parser *)

Record ApiOk := {
  okMessage : jsstring;
  okStatus : option number;
  okBody : option JValue
}.

Record ApiNg := {
  ngMessage : jsstring;
  ngDetails : option (list jsstring);
  ngStatus : option number;
  ngBody : option JValue
}.

Record Parsed := { ok : option ApiOk; ng : option ApiNg }.

Definition parseApi (value : JValue) : Completion Parsed :=
  let obj := asObject value in
  let message := getString (prop obj (lit "message")) in
  match getStringArray (prop obj (lit "details")) with
  | Thrown msg => Thrown msg
  | Returned details =>
    let status := getNumber (prop obj (lit "status")) in
    let body := prop obj (lit "body") in
    let baseMessage := default (lit "response") message in
    match details with
    | Some (d :: ds) =>
      Returned
        {| ok := None;
           ng := Some {| ngMessage := baseMessage;
                         ngDetails := Some (d :: ds);
                         ngStatus := status; ngBody := body |} |}
    | _ =>
      Returned
        {| ok := Some {| okMessage := baseMessage; okStatus := status;
                         okBody := body |};
           ng := None |}
    end
  end.

(** ** The page state *)

Record Row := { id : jsstring; url : jsstring }.

Inductive ResultState :=
| ResultNull
| ResultOk (message : jsstring) (data : option ApiOk)
| ResultNg (message : jsstring) (details : option (list jsstring))
           (data : option ApiNg).

(** [draws] counts the calls of [uid()] made so far. *)
Record PageState := {
  rows : list Row;
  submitting : bool;
  result : ResultState;
  draws : nat
}.

Definition setRows (f : list Row → list Row) (st : PageState) : PageState :=
  {| rows := f (rows st); submitting := submitting st;
     result := result st; draws := draws st |}.

(** [useState<Row[]>([{ id: uid(), url: "" }])] and the other two hooks. *)
Definition initialState : PageState :=
  {| rows := [ {| id := randomId 0; url := [] |} ];
     submitting := false; result := ResultNull; draws := 1 |}.

(** [urls] and [uniqueUrls] of the component. *)
Definition urlsOf (rs : list Row) : list jsstring :=
  List.filter truthy (map (λ r, normalizeUrl (url r)) rs).

(** [new Set(urls)]: a value is added after the ones already there, unless
    it is there already; [Array.from] lists the set in insertion order. *)
Definition setAdd (s : list jsstring) (u : jsstring) : list jsstring :=
  if bool_decide (u ∈ s) then s else s ++ [u].

Definition arrayFromSet (l : list jsstring) : list jsstring :=
  foldl setAdd [] l.

Definition uniqueUrlsOf (rs : list Row) : list jsstring :=
  arrayFromSet (urlsOf rs).

Definition addRow (st : PageState) : PageState :=
  {| rows := rows st ++ [ {| id := randomId (draws st); url := [] |} ];
     submitting := submitting st; result := result st;
     draws := S (draws st) |}.

Definition removeRow (i : jsstring) : PageState → PageState :=
  setRows (λ p, if (length p =? 1)%nat then p
                else filter (λ r, id r ≠ i) p).

Definition setUrl (i u : jsstring) : PageState → PageState :=
  setRows (λ p, map (λ r, if bool_decide (id r = i)
                          then {| id := id r; url := u |} else r) p).

(** ** Pasting *)

(** The separator [/\r?\n|,|\t| +/] matched at the head of [s]: the number
    of code units it takes, if it matches there. *)
Fixpoint spaces (s : jsstring) : nat :=
  match s with
  | 32 :: r => S (spaces r)
  | _ => O
  end.

Definition matchSeparator (s : jsstring) : option nat :=
  match s with
  | 13 :: 10 :: _ => Some 2%nat
  | 10 :: _ => Some 1%nat
  | 44 :: _ => Some 1%nat
  | 9 :: _ => Some 1%nat
  | 32 :: r => Some (S (spaces r))
  | _ => None
  end.

(** [/\r?\n|,|\t| +/.test(t)]: the separator matches somewhere in [t]. *)
Fixpoint hasSeparator (t : jsstring) : bool :=
  match t with
  | [] => false
  | _ :: r =>
    match matchSeparator t with
    | Some _ => true
    | None => hasSeparator r
    end
  end.

(** [t.split(/\r?\n|,|\t| +/g)]: [cur] holds, reversed, the piece being
    read and [skip] the code units of the current separator still to pass. *)
Fixpoint splitFrom (skip : nat) (cur : jsstring) (t : jsstring)
  : list jsstring :=
  match t with
  | [] => [reverse cur]
  | c :: r =>
    match skip with
    | S k => splitFrom k cur r
    | O =>
      match matchSeparator t with
      | Some n => reverse cur :: splitFrom (pred n) [] r
      | None => splitFrom O (c :: cur) r
      end
    end
  end.

Definition split (t : jsstring) : list jsstring := splitFrom O [] t.

(** [parts] of [pasteMany]. *)
Definition pasteParts (text : jsstring) : list jsstring :=
  List.filter truthy (map trim (split text)).

(** [for (const u of rest) next.push({ id: uid(), url: u })] *)
Fixpoint pushRows (next : list Row) (n : nat) (rest : list jsstring)
  : list Row * nat :=
  match rest with
  | [] => (next, n)
  | u :: r => pushRows (next ++ [ {| id := randomId n; url := u |} ]) (S n) r
  end.

(** [next[next.length - 1] = { ...next[next.length - 1], url: first }].
    On an empty array the index is [-1]: the assignment then sets a property
    that is no element, and the elements stay as they are. *)
Definition assignLast (first : jsstring) (next : list Row) : list Row :=
  match list.last next with
  | Some r => <[pred (length next) := {| id := id r; url := first |}]> next
  | None => next
  end.

Definition pasteMany (text : jsstring) (st : PageState) : PageState :=
  match pasteParts text with
  | first :: (_ :: _) as rest =>
    let (next, n) := pushRows (assignLast first (rows st)) (draws st) rest in
    {| rows := next; submitting := submitting st; result := result st;
       draws := n |}
  | _ => st
  end.

(** The [onPaste] handler of the input of row number [idx]; the boolean is
    [true] when [preventDefault] was called. *)
Definition onPaste (idx : nat) (t : jsstring) (st : PageState)
  : bool * PageState :=
  if hasSeparator t then (true, pasteMany t st) else (false, st).

(** [clearAll], which only the second copy of the page has. *)
Definition clearAll (st : PageState) : PageState :=
  {| rows := [ {| id := randomId (draws st); url := [] |} ];
     submitting := submitting st; result := ResultNull;
     draws := S (draws st) |}.

(** ** Validation and submission (page.tsx)

    The repository holds two copies of the page which differ in the texts
    they show and test for: the one with Japanese messages and the one with
    English messages. *)

Inductive Edition := Japanese | English.

Definition msgNoUrl (ed : Edition) : jsstring :=
  match ed with
  | Japanese => lit "URLが0件。最低1件入れろ。"
  | English => lit "No URL provided. Add at least 1 target."
  end.

Definition msgInvalid (ed : Edition) (idx : nat) (u : jsstring) : jsstring :=
  match ed with
  | Japanese => lit "(" ++ decimal (idx + 1) ++ lit ") URL形式が壊れてる: " ++ u
  | English => lit "#" ++ decimal (idx + 1) ++ lit " Invalid URL format: " ++ u
  end.

Definition msgDuplicates (ed : Edition) : jsstring :=
  match ed with
  | Japanese => lit "重複URLが混ざってる。送信は自動でユニーク化する。"
  | English =>
    lit "Duplicates detected. Payload will be de-duplicated automatically."
  end.

Definition markInvalid (ed : Edition) : jsstring :=
  match ed with Japanese => lit "壊れてる" | English => lit "Invalid URL" end.

Definition markNoUrl (ed : Edition) : jsstring :=
  match ed with Japanese => lit "0件" | English => lit "No URL" end.

Definition msgRejected (ed : Edition) : jsstring :=
  match ed with
  | Japanese => lit "入力が雑。直せ。"
  | English => lit "Input rejected."
  end.

Definition msgSendFailed (ed : Edition) : jsstring :=
  match ed with Japanese => lit "送信失敗" | English => lit "Send failed." end.

Definition msgSent (ed : Edition) : jsstring :=
  match ed with
  | Japanese => lit "n8nに投げた。次はワークフロー側で会社情報抽出だ。"
  | English => lit "Payload sent."
  end.

Definition msgNetwork (ed : Edition) : jsstring :=
  match ed with
  | Japanese => lit "通信が死んだ"
  | English => lit "Network error."
  end.

Definition isValidUrl (u : jsstring) : bool :=
  if URL_constructs u then true else false.

Fixpoint isPrefixOf (p s : jsstring) : bool :=
  match p, s with
  | [], _ => true
  | a :: p', b :: s' => (a =? b) && isPrefixOf p' s'
  | _ :: _, [] => false
  end.

(** [s.includes(needle)] *)
Fixpoint includes (s needle : jsstring) : bool :=
  isPrefixOf needle s
  || match s with
     | [] => false
     | _ :: r => includes r needle
     end.

(** The [forEach] of [validate], from index [idx] on. *)
Fixpoint invalidErrors (ed : Edition) (idx : nat) (us : list jsstring)
  : list jsstring :=
  match us with
  | [] => []
  | u :: r =>
    (if negb (isValidUrl u) then [msgInvalid ed idx u] else [])
    ++ invalidErrors ed (S idx) r
  end.

Definition validate (ed : Edition) (rs : list Row) : list jsstring :=
  let urls := urlsOf rs in
  let uniqueUrls := uniqueUrlsOf rs in
  (if (length uniqueUrls =? 0)%nat then [msgNoUrl ed] else [])
  ++ invalidErrors ed 0 uniqueUrls
  ++ (if negb (length urls =? length uniqueUrls)%nat
      then [msgDuplicates ed] else []).

(** What an awaited [fetch] gives: it throws an error with some text, or a
    response arrives with a status and a body text. *)
Inductive FetchOutcome :=
| Threw (msg : jsstring)
| Responded (status : Z) (text : jsstring).

(** [res.ok] *)
Definition resOk (status : Z) : bool :=
  ((200 <=? status) && (status <=? 299))%Z.

Record Submission := {
  subApp : jsstring;
  subUrls : list jsstring;
  subCreatedAt : jsstring
}.

(** The part of [onSubmit] that follows the [fetch]; what [parseApi]
    throws is caught like what [fetch] throws. *)
Definition surface (ed : Edition) (out : FetchOutcome) : ResultState :=
  match out with
  | Threw msg => ResultNg (msgNetwork ed) (Some [msg]) None
  | Responded status text =>
    let raw := default (JObj []) (JSON_parse text) in
    match parseApi raw with
    | Thrown msg => ResultNg (msgNetwork ed) (Some [msg]) None
    | Returned parsed =>
      if negb (resOk status) then
        ResultNg (default (msgSendFailed ed) (ngMessage <$> ng parsed))
                 (Some (default [] (ng parsed ≫= ngDetails)))
                 (ng parsed)
      else
        ResultOk (msgSent ed)
                 (Some (default {| okMessage := lit "forwarded";
                                   okStatus := None; okBody := None |}
                                (ok parsed)))
    end
  end.

Definition isFatal (ed : Edition) (e : jsstring) : bool :=
  includes e (markInvalid ed) || includes e (markNoUrl ed).

(** [onSubmit]: the new state and the requests sent to [/api/submit].
    [now] is [new Date().toISOString()]. *)
Definition onSubmit (ed : Edition) (now : jsstring)
    (fetch : Submission → FetchOutcome) (st : PageState)
  : PageState * list Submission :=
  let errors := validate ed (rows st) in
  let fatal := List.filter (isFatal ed) errors in
  match fatal with
  | _ :: _ =>
    ({| rows := rows st; submitting := submitting st;
        result := ResultNg (msgRejected ed) (Some errors) None;
        draws := draws st |}, [])
  | [] =>
    let request := {| subApp := lit "Next Asia Link";
                      subUrls := uniqueUrlsOf (rows st);
                      subCreatedAt := now |} in
    ({| rows := rows st; submitting := false;
        result := surface ed (fetch request);
        draws := draws st |}, [request])
  end.

(** ** The relay (route.ts) *)

Record Envelope := {
  envMessage : jsstring;
  envStatus : option Z;
  envDetails : option (list jsstring);
  envBody : option JValue
}.

(** [NextResponse.json(envelope, { status: code })] *)
Record HttpResponse := { code : Z; envelope : Envelope }.

Record RelayPayload := {
  app : jsstring;
  urls : list jsstring;
  meta_created_at : jsstring;
  meta_user_agent : jsstring;
  meta_ip_hint : jsstring
}.

Record Request := {
  reqBody : jsstring;
  reqUserAgent : option jsstring;
  reqForwardedFor : option jsstring
}.

Definition safeJsonParse (text : jsstring) : JValue :=
  match JSON_parse text with
  | Some v => v
  | None => JStr text
  end.

Definition justMessage (m : jsstring) : Envelope :=
  {| envMessage := m; envStatus := None; envDetails := None;
     envBody := None |}.

(** [POST]: how the handler ends and the outbound calls made, each with
    its target.  [webhook] is [process.env.N8N_WEBHOOK_URL].  What
    [asStringArray] throws is thrown by the handler: it is called before
    the [try]. *)
Definition POST (webhook : option jsstring) (now : jsstring)
    (fetch : jsstring → RelayPayload → FetchOutcome) (req : Request)
  : Completion HttpResponse * list (jsstring * RelayPayload) :=
  if negb (truthy (default [] webhook)) then
    (Returned
       {| code := 500;
          envelope :=
            justMessage
              (lit "N8N_WEBHOOK_URL が未設定（Vercelの環境変数に入れろ）") |},
     [])
  else
    match JSON_parse (reqBody req) with
    | None =>
      (Returned
         {| code := 400; envelope := justMessage (lit "JSONが壊れてる") |},
       [])
    | Some body =>
      let obj := asObject body in
      let app := default (lit "Next Asia Link")
                         (asString (prop obj (lit "app"))) in
      let created_at := default now (asString (prop obj (lit "created_at"))) in
      match asStringArray (prop obj (lit "urls")) with
      | Thrown msg => (Thrown msg, [])
      | Returned strings =>
        let urls := default [] strings in
        if (length urls =? 0)%nat then
          (Returned
             {| code := 400; envelope := justMessage (lit "urls が空") |},
           [])
        else
          let payload :=
            {| app := app; urls := urls; meta_created_at := created_at;
               meta_user_agent := default [] (reqUserAgent req);
               meta_ip_hint := default [] (reqForwardedFor req) |} in
          (Returned
             match fetch (default [] webhook) payload with
             | Threw msg =>
               {| code := 502;
                  envelope := {| envMessage := lit "Webhook転送で例外";
                                 envStatus := None; envDetails := Some [msg];
                                 envBody := None |} |}
             | Responded status text =>
               let parsed := safeJsonParse text in
               if negb (resOk status) then
                 {| code := 502;
                    envelope := {| envMessage := lit "n8n がエラー返した";
                                   envStatus := Some status;
                                   envDetails := None;
                                   envBody := Some parsed |} |}
               else
                 {| code := 200;
                    envelope := {| envMessage := lit "forwarded";
                                   envStatus := Some status;
                                   envDetails := None;
                                   envBody := Some parsed |} |}
             end, [(default [] webhook, payload)])
      end
    end.

(** ** Runs of the page *)

Inductive Action :=
| AddRow
| RemoveRow (i : jsstring)
| SetUrl (i u : jsstring)
| Paste (idx : nat) (text : jsstring)
| ClearAll.

Definition step (st : PageState) (a : Action) : PageState :=
  match a with
  | AddRow => addRow st
  | RemoveRow i => removeRow i st
  | SetUrl i u => setUrl i u st
  | Paste idx text => snd (onPaste idx text st)
  | ClearAll => clearAll st
  end.

Definition run (actions : list Action) : PageState :=
  foldl step initialState actions.

(** The Entries are there, their identifiers differ, and each identifier
    is one that [uid()] has already returned. *)
Definition wellFormed (rs : list Row) (d : nat) : Prop :=
  rs ≠ [] ∧ NoDup (id <$> rs)
  ∧ ∀ r, r ∈ rs → ∃ k, (k < d)%nat ∧ id r = randomId k.

(** The decoded body has a non-empty array at [urls]. *)
Definition hasUrls (body : JValue) : Prop :=
  ∃ x xs, prop (asObject body) (lit "urls") = Some (JArr (x :: xs)).

(** The code units that are a separator of [pasteMany] by themselves: line
    feed, comma, tab and space. *)
Definition isSeparatorUnit (c : N) : bool :=
  (c =? 10) || (c =? 44) || (c =? 9) || (c =? 32).

(** What the page puts in the body of its request,
    [JSON.stringify({ app, urls, created_at })], once decoded again. *)
Definition submissionJson (sub : Submission) : JValue :=
  JObj [ (lit "app", JStr (subApp sub));
         (lit "urls", JArr (map JStr (subUrls sub)));
         (lit "created_at", JStr (subCreatedAt sub)) ].

End Code.

(** ** A small host for the examples

    Integers as numbers, a decoder that knows the handful of texts the
    examples use, a [URL] constructor that wants a scheme and no white
    space, and identifiers [a], [aa], [aaa], ... *)

Fixpoint sampleDigits (acc : Z) (s : jsstring) : option Z :=
  match s with
  | [] => Some acc
  | c :: r =>
    if (48 <=? c) && (c <=? 57)
    then sampleDigits (acc * 10 + Z.of_N (c - 48)) r
    else None
  end.

Definition sampleNumbers : Numbers :=
  {| number := option Z;
     numberToString := λ n,
       match n with
       | None => lit "NaN"
       | Some z =>
         if (z <? 0)%Z then lit "-" ++ decimal (Z.to_nat (- z))
         else decimal (Z.to_nat z)
       end;
     toNumber := λ s, sampleDigits 0 (trim s);
     numberIsNaN := λ n, match n with None => true | Some _ => false end |}.

Definition sampleValue : Type := @JValue sampleNumbers.

(** [{"x":1}] *)
Definition textX1 : jsstring :=
  lit "{" ++ dquote ++ lit "x" ++ dquote ++ lit ":1}".

(** [{"urls":[]}] *)
Definition textNoUrls : jsstring :=
  lit "{" ++ dquote ++ lit "urls" ++ dquote ++ lit ":[]}".

(** [{"urls":["a.com",7]}] *)
Definition textUrls : jsstring :=
  lit "{" ++ dquote ++ lit "urls" ++ dquote ++ lit ":["
  ++ dquote ++ lit "a.com" ++ dquote ++ lit ",7]}".

(** [{"message":"urls が空"}], what the relay answers with status 400. *)
Definition textEmptyUrls : jsstring :=
  lit "{" ++ dquote ++ lit "message" ++ dquote ++ lit ":"
  ++ dquote ++ lit "urls が空" ++ dquote ++ lit "}".

Definition sampleNum (z : Z) : sampleValue := @JNum sampleNumbers (Some z).

Definition sampleTable : list (jsstring * sampleValue) :=
  [ (textX1, JObj [(lit "x", sampleNum 1)]);
    (textNoUrls, JObj [(lit "urls", JArr [])]);
    (textUrls, JObj [(lit "urls", JArr [JStr (lit "a.com"); sampleNum 7])]);
    (textEmptyUrls, JObj [(lit "message", JStr (lit "urls が空"))]);
    (lit "null", JNull) ].

Fixpoint sampleDecode (table : list (jsstring * sampleValue)) (t : jsstring)
  : option sampleValue :=
  match table with
  | [] => None
  | (k, v) :: r => if bool_decide (k = t) then Some v else sampleDecode r t
  end.

Definition samplePlatform : @Platform sampleNumbers :=
  {| JSON_parse := sampleDecode sampleTable;
     URL_constructs := λ u, hasScheme u && negb (existsb isWhiteSpace u);
     typeErrorMessage := lit "Cannot convert object to primitive value" |}.

Definition sampleEntropy : Entropy :=
  {| randomId := λ n, replicate (S n) 97 |}.

Definition sampleNow : jsstring := lit "2026-01-01T00:00:00.000Z".

Definition sampleWebhook : jsstring := lit "https://n8n.example/webhook/x".

Definition sampleRequest (text : jsstring) : Request :=
  {| reqBody := text; reqUserAgent := Some (lit "curl/8");
     reqForwardedFor := None |}.

(** The page with two empty Entries, [a] and [aa]. *)
Definition twoRows : @PageState sampleNumbers :=
  @run sampleNumbers sampleEntropy [AddRow].

Definition bodyNoUrls : sampleValue := JObj [(lit "urls", JArr [])].

Definition bodyUrls : sampleValue :=
  JObj [(lit "urls", JArr [JStr (lit "a.com"); sampleNum 7])].

(** A second decoder for the examples, which also knows a failure response
    with details and the request of a page with one URL. *)

(** [{"message":"Webhook転送で例外","details":["boom"]}] *)
Definition textFailure : jsstring :=
  lit "{" ++ dquote ++ lit "message" ++ dquote ++ lit ":"
  ++ dquote ++ lit "Webhook転送で例外" ++ dquote ++ lit ","
  ++ dquote ++ lit "details" ++ dquote ++ lit ":["
  ++ dquote ++ lit "boom" ++ dquote ++ lit "]}".

Definition sampleSubmission : Submission :=
  {| subApp := lit "Next Asia Link";
     subUrls := [lit "https://example.com"];
     subCreatedAt := sampleNow |}.

(** The request body of [sampleSubmission]. *)
Definition textSubmission : jsstring :=
  lit "{" ++ dquote ++ lit "app" ++ dquote ++ lit ":"
  ++ dquote ++ lit "Next Asia Link" ++ dquote ++ lit ","
  ++ dquote ++ lit "urls" ++ dquote ++ lit ":["
  ++ dquote ++ lit "https://example.com" ++ dquote ++ lit "],"
  ++ dquote ++ lit "created_at" ++ dquote ++ lit ":"
  ++ dquote ++ sampleNow ++ dquote ++ lit "}".

Definition bodyFailure : sampleValue :=
  JObj [ (lit "message", JStr (lit "Webhook転送で例外"));
         (lit "details", JArr [JStr (lit "boom")]) ].

(** [{"urls":[{"toString":1}]}] *)
Definition textHostileUrls : jsstring :=
  lit "{" ++ dquote ++ lit "urls" ++ dquote ++ lit ":[{"
  ++ dquote ++ lit "toString" ++ dquote ++ lit ":1}]}".

Definition bodyHostileUrls : sampleValue :=
  JObj [(lit "urls", JArr [JObj [(lit "toString", sampleNum 1)]])].

(** [{"message":"no","details":[{"toString":1}]}] *)
Definition textHostileDetails : jsstring :=
  lit "{" ++ dquote ++ lit "message" ++ dquote ++ lit ":"
  ++ dquote ++ lit "no" ++ dquote ++ lit ","
  ++ dquote ++ lit "details" ++ dquote ++ lit ":[{"
  ++ dquote ++ lit "toString" ++ dquote ++ lit ":1}]}".

Definition bodyHostileDetails : sampleValue :=
  JObj [ (lit "message", JStr (lit "no"));
         (lit "details", JArr [JObj [(lit "toString", sampleNum 1)]]) ].

Definition sampleTable2 : list (jsstring * sampleValue) :=
  (textFailure, bodyFailure)
  :: (textSubmission, @submissionJson sampleNumbers sampleSubmission)
  :: (textHostileUrls, bodyHostileUrls)
  :: (textHostileDetails, bodyHostileDetails)
  :: sampleTable.

Definition samplePlatform2 : @Platform sampleNumbers :=
  {| JSON_parse := sampleDecode sampleTable2;
     URL_constructs := λ u, hasScheme u && negb (existsb isWhiteSpace u);
     typeErrorMessage := lit "Cannot convert object to primitive value" |}.

(** A source of identifiers that repeats itself: [Math.random()] returning
    0.5 each time makes [uid()] return [i] each time. *)
Definition collidingEntropy : Entropy := {| randomId := λ _, lit "i" |}.

(** The page with [example.com] typed into its one Entry. *)
Definition oneUrl : @PageState sampleNumbers :=
  @setUrl sampleNumbers (@randomId sampleEntropy 0) (lit "example.com")
    (@initialState sampleNumbers sampleEntropy).

(** * Properties *)

Example lit_ascii : lit "https://" = [104; 116; 116; 112; 115; 58; 47; 47].
Proof. reflexivity. Qed.

Example lit_bmp : lit "0件" = [48; 20214].
Proof. reflexivity. Qed.

Example normalizeUrl_bare :
  normalizeUrl (lit "  example.com ") = lit "https://example.com".
Proof. reflexivity. Qed.

Example normalizeUrl_upper :
  normalizeUrl (lit "HTTP://a.b") = lit "HTTP://a.b".
Proof. reflexivity. Qed.

(** ** Trimming *)

Lemma trimStart_head (s : jsstring) :
  match trimStart s with [] => True | c :: _ => isWhiteSpace c = false end.
Proof.
  induction s as [|c r IH]; simpl; [done|].
  destruct (isWhiteSpace c) eqn:E; [done|]. by rewrite E.
Qed.

Lemma trimStart_fix (s : jsstring) :
  match s with [] => True | c :: _ => isWhiteSpace c = false end →
  trimStart s = s.
Proof. destruct s as [|c r]; simpl; [done|]. by intros ->. Qed.

Lemma trimStart_suffix (s : jsstring) : ∃ w, s = w ++ trimStart s.
Proof.
  induction s as [|c r [w IH]]; simpl.
  - by exists [].
  - destruct (isWhiteSpace c).
    + exists (c :: w). simpl. by f_equal.
    + by exists [].
Qed.

Lemma trimEnd_prefix (s : jsstring) : ∃ w, s = trimEnd s ++ w.
Proof.
  unfold trimEnd. destruct (trimStart_suffix (reverse s)) as [w Hw].
  exists (reverse w).
  rewrite <- reverse_app, <- Hw. by rewrite reverse_involutive.
Qed.

Lemma trimEnd_idem (s : jsstring) : trimEnd (trimEnd s) = trimEnd s.
Proof.
  unfold trimEnd. rewrite reverse_involutive. f_equal.
  apply trimStart_fix, trimStart_head.
Qed.

Lemma trimEnd_head (s : jsstring) :
  match s with [] => True | c :: _ => isWhiteSpace c = false end →
  match trimEnd s with [] => True | c :: _ => isWhiteSpace c = false end.
Proof.
  intros H. destruct (trimEnd_prefix s) as [w Hw].
  destruct (trimEnd s) as [|c r]; [done|].
  rewrite Hw in H. exact H.
Qed.

Lemma trim_idem (s : jsstring) : trim (trim s) = trim s.
Proof.
  unfold trim.
  rewrite (trimStart_fix (trimEnd (trimStart s))).
  - apply trimEnd_idem.
  - apply trimEnd_head, trimStart_head.
Qed.

(** A string is unchanged by [trim] as soon as neither end is white space. *)
Lemma trim_fix (s : jsstring) :
  match s with [] => True | c :: _ => isWhiteSpace c = false end →
  match reverse s with [] => True | c :: _ => isWhiteSpace c = false end →
  trim s = s.
Proof.
  intros Hh Hl. unfold trim. rewrite (trimStart_fix s Hh).
  unfold trimEnd. rewrite (trimStart_fix _ Hl). apply reverse_involutive.
Qed.

Lemma trim_last (s : jsstring) :
  match reverse (trim s) with
  | [] => True
  | c :: _ => isWhiteSpace c = false
  end.
Proof.
  unfold trim, trimEnd. rewrite reverse_involutive. apply trimStart_head.
Qed.

Lemma reverse_app_last (a v : jsstring) :
  v ≠ [] →
  match reverse v with [] => True | c :: _ => isWhiteSpace c = false end →
  match reverse (a ++ v) with
  | [] => True
  | c :: _ => isWhiteSpace c = false
  end.
Proof.
  intros Hv H. rewrite reverse_app.
  destruct (reverse v) as [|c r] eqn:E; [|exact H].
  apply (f_equal reverse) in E. rewrite reverse_involutive in E. done.
Qed.

Lemma normalizeUrl_cases (s : jsstring) :
  (trim s = [] ∧ normalizeUrl s = [])
  ∨ (trim s ≠ [] ∧ hasScheme (trim s) = true ∧ normalizeUrl s = trim s)
  ∨ (trim s ≠ [] ∧ hasScheme (trim s) = false
     ∧ normalizeUrl s = lit "https://" ++ trim s).
Proof.
  unfold normalizeUrl. destruct (trim s) as [|c r] eqn:Ev; [by left|].
  right. cbv zeta. change (negb (truthy (c :: r))) with false. cbv iota.
  destruct (hasScheme (c :: r)); [left|right]; done.
Qed.

Lemma normalizeUrl_fix (v : jsstring) :
  trim v = v → v = [] ∨ hasScheme v = true → normalizeUrl v = v.
Proof.
  intros Ht Hv. unfold normalizeUrl. rewrite Ht. cbv zeta.
  destruct Hv as [-> | Hs]; [done|].
  rewrite Hs. by destruct v.
Qed.

(** C4: [normalizeUrl] is idempotent on every input string. *)
Theorem normalizeUrl_idempotent (s : jsstring) :
  normalizeUrl (normalizeUrl s) = normalizeUrl s.
Proof.
  destruct (normalizeUrl_cases s)
    as [[_ ->] | [(Hne & Hs & ->) | (Hne & Hs & ->)]].
  - reflexivity.
  - apply normalizeUrl_fix; [apply trim_idem | by right].
  - apply normalizeUrl_fix; [|by right].
    apply trim_fix; [reflexivity|].
    apply reverse_app_last; [done | apply trim_last].
Qed.

Section Properties.
Context {numbers : Numbers} {platform : Platform} {entropy : Entropy}.

(** ** Deduplication *)

Lemma filter_absent (l : list jsstring) (x : jsstring) :
  x ∉ l → filter (λ y, y = x) l = [].
Proof.
  induction l as [|y l IH]; [done|].
  rewrite not_elem_of_cons. intros [Hxy Hl].
  rewrite filter_cons_False by congruence. by apply IH.
Qed.

Lemma setAdd_new (s : list jsstring) (u : jsstring) :
  u ∉ s → setAdd s u = s ++ [u].
Proof. intros Hu. unfold setAdd. by rewrite bool_decide_eq_false_2. Qed.

Lemma setAdd_old (s : list jsstring) (u : jsstring) :
  u ∈ s → setAdd s u = s.
Proof. intros Hu. unfold setAdd. by rewrite bool_decide_eq_true_2. Qed.

Lemma setAdd_elem (s : list jsstring) (u x : jsstring) :
  x ∈ setAdd s u ↔ x ∈ s ∨ x = u.
Proof.
  unfold setAdd. case_bool_decide as Hu.
  - split; [by left|]. intros [?| ->]; done.
  - rewrite elem_of_app, list_elem_of_singleton. done.
Qed.

Lemma setAdd_NoDup (s : list jsstring) (u : jsstring) :
  NoDup s → NoDup (setAdd s u).
Proof.
  intros Hs. unfold setAdd. case_bool_decide as Hu; [done|].
  apply NoDup_app. split_and!; [done| |apply NoDup_singleton].
  intros x Hx Hx'. apply list_elem_of_singleton in Hx'. by subst.
Qed.

Lemma foldl_setAdd_elem (l acc : list jsstring) (x : jsstring) :
  x ∈ foldl setAdd acc l ↔ x ∈ acc ∨ x ∈ l.
Proof.
  revert acc. induction l as [|u l IH]; intros acc; simpl.
  - rewrite elem_of_nil. tauto.
  - rewrite IH, setAdd_elem, elem_of_cons. tauto.
Qed.

Lemma foldl_setAdd_NoDup (l acc : list jsstring) :
  NoDup acc → NoDup (foldl setAdd acc l).
Proof.
  revert acc. induction l as [|u l IH]; intros acc Hacc; simpl; [done|].
  by apply IH, setAdd_NoDup.
Qed.

(** The set only grows at its end. *)
Lemma foldl_setAdd_prefix (l acc : list jsstring) :
  ∃ t, foldl setAdd acc l = acc ++ t.
Proof.
  revert acc. induction l as [|u l IH]; intros acc; simpl.
  - exists []. by rewrite app_nil_r.
  - destruct (IH (setAdd acc u)) as [t Ht]. rewrite Ht.
    unfold setAdd. case_bool_decide.
    + by exists t.
    + exists (u :: t). by rewrite <- app_assoc.
Qed.

(** C9: [uniqueUrls] keeps the first occurrence of every URL, in order:
    [[b, a, b, c, a]] becomes [[b, a, c]]; in general the result has no
    duplicate, has the elements of the input, and an element whose first
    occurrence comes after the prefix [l1] of the input stands right after
    the unique elements of [l1]. *)
Theorem uniqueUrls_first_occurrence :
  (∀ a b c : jsstring, a ≠ b → a ≠ c → b ≠ c →
     arrayFromSet [b; a; b; c; a] = [b; a; c])
  ∧ (∀ l : list jsstring,
       NoDup (arrayFromSet l)
       ∧ (∀ x, x ∈ arrayFromSet l ↔ x ∈ l)
       ∧ (∀ x, x ∈ l → length (filter (λ y, y = x) (arrayFromSet l)) = 1%nat)
       ∧ (∀ l1 x l2, l = l1 ++ x :: l2 → x ∉ l1 →
            ∃ t, arrayFromSet l = arrayFromSet l1 ++ x :: t)).
Proof.
  split.
  - intros a b c Hab Hac Hbc. unfold arrayFromSet. simpl.
    rewrite (setAdd_new [] b) by apply not_elem_of_nil. simpl.
    rewrite (setAdd_new [b] a)
      by (rewrite list_elem_of_singleton; congruence).
    simpl.
    rewrite (setAdd_old [b; a] b) by apply list_elem_of_here.
    rewrite (setAdd_new [b; a] c)
      by (rewrite !elem_of_cons, elem_of_nil; intros [?|[?|[]]]; congruence).
    simpl.
    apply setAdd_old. rewrite !elem_of_cons. tauto.
  - intros l. unfold arrayFromSet.
    assert (Hnd : NoDup (foldl setAdd [] l))
      by (apply foldl_setAdd_NoDup, NoDup_nil_2).
    assert (Hel : ∀ x, x ∈ foldl setAdd [] l ↔ x ∈ l).
    { intros x. rewrite foldl_setAdd_elem, elem_of_nil. tauto. }
    split_and!; [done|done| |].
    + intros x Hx. apply Hel in Hx.
      apply list_elem_of_split in Hx as (l1 & l2 & Heq).
      rewrite Heq in Hnd |- *.
      apply NoDup_app in Hnd as (_ & Hd & Hnd2).
      apply NoDup_cons in Hnd2 as [Hx2 _].
      rewrite filter_app, filter_cons_True by done.
      rewrite (filter_absent l1 x), (filter_absent l2 x); [done|done|].
      intros Hx1. apply (Hd x Hx1). left.
    + intros l1 x l2 -> Hx. rewrite foldl_app. simpl.
      destruct (foldl_setAdd_prefix l2 (setAdd (foldl setAdd [] l1) x))
        as [t ->].
      unfold setAdd at 1. rewrite bool_decide_eq_false_2.
      * exists t. by rewrite <- app_assoc.
      * rewrite foldl_setAdd_elem, elem_of_nil. tauto.
Qed.

(** ** Pasting *)

Lemma hasSeparator_cons (c : N) (r : jsstring) :
  hasSeparator (c :: r)
  = match matchSeparator (c :: r) with
    | Some _ => true
    | None => hasSeparator r
    end.
Proof. reflexivity. Qed.

Lemma splitFrom_cons (cur : jsstring) (c : N) (r : jsstring) :
  splitFrom 0 cur (c :: r)
  = match matchSeparator (c :: r) with
    | Some n => reverse cur :: splitFrom (pred n) [] r
    | None => splitFrom 0 (c :: cur) r
    end.
Proof. reflexivity. Qed.

(** Without a separator the text is one piece. *)
Lemma splitFrom_no_separator (t cur : jsstring) :
  hasSeparator t = false → splitFrom 0 cur t = [reverse cur ++ t].
Proof.
  revert cur. induction t as [|c r IH]; intros cur Hs.
  - simpl. by rewrite app_nil_r.
  - rewrite hasSeparator_cons in Hs. rewrite splitFrom_cons.
    destruct (matchSeparator (c :: r)); [done|].
    rewrite (IH _ Hs), reverse_cons, <- app_assoc. done.
Qed.

Lemma pasteParts_no_separator (t : jsstring) :
  hasSeparator t = false → pasteParts t = List.filter truthy [trim t].
Proof.
  intros Hs. unfold pasteParts, split.
  by rewrite (splitFrom_no_separator t [] Hs).
Qed.

Lemma pasteParts_many_separator (t first second : jsstring)
    (rest : list jsstring) :
  pasteParts t = first :: second :: rest → hasSeparator t = true.
Proof.
  intros Hp. destruct (hasSeparator t) eqn:Hs; [done|].
  rewrite (pasteParts_no_separator t Hs) in Hp. simpl in Hp.
  by destruct (truthy (trim t)).
Qed.

Lemma assignLast_snoc (first : jsstring) (init : list Row) (r : Row) :
  assignLast first (init ++ [r]) = init ++ [ {| id := id r; url := first |} ].
Proof.
  unfold assignLast. rewrite last_snoc, length_app. simpl.
  replace (pred (length init + 1)) with (length init + 0)%nat by lia.
  by rewrite insert_app_r.
Qed.

Lemma pushRows_imap (rest : list jsstring) (next : list Row) (n : nat) :
  pushRows next n rest
  = (next ++ imap (λ k u, {| id := randomId (n + k); url := u |}) rest,
     (n + length rest)%nat).
Proof.
  revert next n. induction rest as [|u rest IH]; intros next n; simpl.
  - by rewrite app_nil_r, Nat.add_0_r.
  - rewrite IH, <- app_assoc. simpl. rewrite Nat.add_0_r. do 2 f_equal.
    + f_equal. apply imap_ext. intros k x _. simpl. do 2 f_equal. lia.
    + lia.
Qed.

Lemma pasteMany_rows (t first second : jsstring) (rest : list jsstring)
    (init : list Row) (r : Row) (st : PageState) :
  pasteParts t = first :: second :: rest →
  rows st = init ++ [r] →
  pasteMany t st
  = {| rows := init ++ {| id := id r; url := first |}
               :: imap (λ k u, {| id := randomId (draws st + k); url := u |})
                       (second :: rest);
       submitting := submitting st; result := result st;
       draws := (draws st + length (second :: rest))%nat |}.
Proof.
  intros Hp Hr. unfold pasteMany. rewrite Hp, Hr, assignLast_snoc.
  rewrite pushRows_imap, <- app_assoc. done.
Qed.

(** X24: what a paste does.  A text of more than one token is intercepted,
    its first token goes to the last Entry of the list, and one Entry is
    appended per remaining token, in token order, with the next identifiers
    of [uid()]; a text without any separator is at most one token and is
    left to the default paste. *)
Theorem onPaste_tokens (idx : nat) (t : jsstring) (st : PageState) :
  (∀ first second rest init r,
     pasteParts t = first :: second :: rest →
     rows st = init ++ [r] →
     onPaste idx t st
     = (true,
        {| rows := init ++ {| id := id r; url := first |}
                   :: imap (λ k u, {| id := randomId (draws st + k);
                                      url := u |})
                           (second :: rest);
           submitting := submitting st; result := result st;
           draws := (draws st + length (second :: rest))%nat |}))
  ∧ (hasSeparator t = false →
     (length (pasteParts t) ≤ 1)%nat ∧ onPaste idx t st = (false, st)).
Proof.
  split.
  - intros first second rest init r Hp Hr. unfold onPaste.
    rewrite (pasteParts_many_separator _ _ _ _ Hp).
    by rewrite (pasteMany_rows _ _ _ _ _ _ _ Hp Hr).
  - intros Hs. split.
    + rewrite (pasteParts_no_separator t Hs). simpl.
      destruct (truthy (trim t)); simpl; lia.
    + unfold onPaste. by rewrite Hs.
Qed.

(** C2, where the code departs from it: the handler is told the field
    that is pasted into and does not use it.  A paste of several tokens into
    a field that is not the last one is intercepted, leaves the Entry of
    that field as it was, and writes the first token over the last Entry;
    and a text that holds a separator but at most one token is intercepted
    too and then dropped, so that nothing is pasted at all. *)
Theorem onPaste_misses_field (idx : nat) (t : jsstring) (st : PageState) :
  (∀ first second rest init r,
     pasteParts t = first :: second :: rest →
     rows st = init ++ [r] →
     (idx < length init)%nat →
     fst (onPaste idx t st) = true
     ∧ rows (snd (onPaste idx t st)) !! idx = rows st !! idx
     ∧ rows (snd (onPaste idx t st)) !! length init
       = Some {| id := id r; url := first |})
  ∧ (hasSeparator t = true → (length (pasteParts t) ≤ 1)%nat →
     onPaste idx t st = (true, st)).
Proof.
  split.
  - intros first second rest init r Hp Hr Hi. unfold onPaste.
    rewrite (pasteParts_many_separator _ _ _ _ Hp).
    rewrite (pasteMany_rows _ _ _ _ _ _ _ Hp Hr). simpl fst. simpl snd.
    simpl rows. rewrite Hr. split_and!.
    + done.
    + by rewrite !lookup_app_l.
    + rewrite lookup_app_r by lia. by rewrite Nat.sub_diag.
  - intros Hs Hl. unfold onPaste, pasteMany. rewrite Hs.
    destruct (pasteParts t) as [|first [|second rest]]; [done|done|].
    simpl in Hl. lia.
Qed.

(** ** The Entry list never runs empty *)

Section Invariant.

(** [uid()] never returns the same identifier twice. *)
Hypothesis uid_unique : ∀ m n, randomId m = randomId n → m = n.

Lemma wellFormed_initial :
  wellFormed (rows initialState) (draws initialState).
Proof.
  split_and!; simpl.
  - done.
  - apply NoDup_singleton.
  - intros r ->%list_elem_of_singleton. exists 0%nat. split; [lia|done].
Qed.

Lemma wellFormed_push (rs : list Row) (d : nat) (u : jsstring) :
  NoDup (id <$> rs) →
  (∀ r, r ∈ rs → ∃ k, (k < d)%nat ∧ id r = randomId k) →
  wellFormed (rs ++ [ {| id := randomId d; url := u |} ]) (S d).
Proof.
  intros Hnd Hb. split_and!.
  - by destruct rs.
  - rewrite fmap_app. apply NoDup_app. split_and!; [done| |apply NoDup_singleton].
    intros i Hi ->%list_elem_of_singleton.
    apply list_elem_of_fmap in Hi as (r & Hr & Hin).
    destruct (Hb r Hin) as (k & Hk & Hid). simpl in Hr.
    rewrite Hid in Hr. apply uid_unique in Hr. lia.
  - intros r [Hin | ->%list_elem_of_singleton]%elem_of_app.
    + destruct (Hb r Hin) as (k & Hk & Hid). exists k. split; [lia|done].
    + exists d. split; [lia|done].
Qed.

Lemma wellFormed_pushRows (rest : list jsstring) (rs : list Row) (d : nat) :
  wellFormed rs d →
  wellFormed (fst (pushRows rs d rest)) (snd (pushRows rs d rest)).
Proof.
  revert rs d. induction rest as [|u rest IH]; intros rs d Hwf; simpl.
  - done.
  - apply IH. destruct Hwf as (_ & Hnd & Hb). by apply wellFormed_push.
Qed.

Lemma assignLast_ids (first : jsstring) (rs : list Row) :
  id <$> assignLast first rs = id <$> rs.
Proof.
  destruct rs as [|r0 rs0] using rev_ind; [done|].
  rewrite assignLast_snoc, !fmap_app. done.
Qed.

Lemma wellFormed_assignLast (first : jsstring) (rs : list Row) (d : nat) :
  wellFormed rs d → wellFormed (assignLast first rs) d.
Proof.
  intros (Hne & Hnd & Hb).
  destruct rs as [|r0 rs0 _] using rev_ind; [done|].
  rewrite assignLast_snoc. split_and!.
  - by destruct rs0.
  - rewrite fmap_app in Hnd |- *. done.
  - intros r [Hin | ->%list_elem_of_singleton]%elem_of_app.
    + apply Hb, elem_of_app. by left.
    + apply (Hb r0), elem_of_app. right. by apply list_elem_of_singleton.
Qed.

Lemma setUrl_ids (i u : jsstring) (rs : list Row) :
  id <$> map (λ r, if bool_decide (id r = i)
                   then {| id := id r; url := u |} else r) rs
  = id <$> rs.
Proof.
  induction rs as [|r rs IH]; [done|]. simpl. f_equal.
  - by case_bool_decide.
  - exact IH.
Qed.

Lemma filter_ids_NoDup (i : jsstring) (rs : list Row) :
  NoDup (id <$> rs) → NoDup (id <$> filter (λ r, id r ≠ i) rs).
Proof.
  induction rs as [|r rs IH]; [done|].
  rewrite fmap_cons, NoDup_cons. intros [Hr Hnd].
  rewrite filter_cons. case_decide; [|by apply IH].
  rewrite fmap_cons, NoDup_cons. split; [|by apply IH].
  intros (r' & Hid & Hin)%list_elem_of_fmap.
  apply list_elem_of_filter in Hin as [_ Hin].
  apply Hr, list_elem_of_fmap. by exists r'.
Qed.

(** Of two Entries with different identifiers, removal keeps one. *)
Lemma filter_ids_nonempty (i : jsstring) (rs : list Row) :
  NoDup (id <$> rs) → (2 ≤ length rs)%nat →
  filter (λ r, id r ≠ i) rs ≠ [].
Proof.
  destruct rs as [|r1 [|r2 rs]]; simpl; [lia|lia|]. intros Hnd _.
  apply NoDup_cons in Hnd as [Hne _].
  apply not_elem_of_cons in Hne as [Hne _].
  destruct (decide (id r1 = i)) as [Heq|Hr1].
  - rewrite filter_cons_False by tauto.
    rewrite filter_cons_True by congruence. done.
  - by rewrite filter_cons_True.
Qed.

Lemma wellFormed_step (st : PageState) (a : Action) :
  wellFormed (rows st) (draws st) →
  wellFormed (rows (step st a)) (draws (step st a)).
Proof.
  intros Hwf. destruct a as [|i|i u|idx text|]; simpl.
  - destruct Hwf as (_ & Hnd & Hb). by apply wellFormed_push.
  - destruct Hwf as (Hne & Hnd & Hb).
    destruct (length (rows st) =? 1)%nat eqn:El; [done|].
    apply Nat.eqb_neq in El. split_and!.
    + apply filter_ids_nonempty; [done|].
      destruct (rows st) as [|r1 [|r2 rs]]; simpl in *; [done|lia|lia].
    + by apply filter_ids_NoDup.
    + intros r [_ Hin]%list_elem_of_filter. by apply Hb.
  - destruct Hwf as (Hne & Hnd & Hb). split_and!.
    + by destruct (rows st).
    + by rewrite setUrl_ids.
    + intros r (r' & -> & Hin)%list_elem_of_fmap.
      destruct (Hb r' Hin) as (k & Hk & Hid). exists k.
      by case_bool_decide.
  - unfold onPaste. destruct (hasSeparator text); [|done]. simpl.
    unfold pasteMany. destruct (pasteParts text) as [|first [|second rest]];
      [done|done|].
    pose proof (wellFormed_pushRows (second :: rest) _ _
                  (wellFormed_assignLast first _ _ Hwf)) as Hp.
    by destruct (pushRows _ _ (second :: rest)).
  - destruct Hwf as (_ & _ & _). split_and!.
    + done.
    + apply NoDup_singleton.
    + intros r ->%list_elem_of_singleton. exists (draws st).
      split; [lia|done].
Qed.

Lemma wellFormed_foldl (actions : list Action) (st : PageState) :
  wellFormed (rows st) (draws st) →
  wellFormed (rows (foldl step st actions))
             (draws (foldl step st actions)).
Proof.
  revert st. induction actions as [|a actions IH]; intros st Hwf; [done|].
  simpl. by apply IH, wellFormed_step.
Qed.

End Invariant.

Lemma step_keeps_a_row (st : PageState) (a : Action) :
  (∀ i, a ≠ RemoveRow i) →
  (1 ≤ length (rows st))%nat → (1 ≤ length (rows (step st a)))%nat.
Proof.
  intros Ha Hst. destruct a as [|i|i u|idx text|]; simpl.
  - rewrite length_app. simpl. lia.
  - by destruct (Ha i).
  - by rewrite length_map.
  - unfold onPaste. destruct (hasSeparator text); [|done]. simpl.
    unfold pasteMany.
    destruct (pasteParts text) as [|first [|second rest]]; [done|done|].
    rewrite pushRows_imap. simpl. rewrite length_app. simpl. lia.
  - lia.
Qed.

Lemma removeRow_keeps_a_row (st : PageState) (i : jsstring) :
  NoDup (id <$> rows st) →
  (1 ≤ length (rows st))%nat → (1 ≤ length (rows (removeRow i st)))%nat.
Proof.
  intros Hnd Hst. simpl.
  destruct (length (rows st) =? 1)%nat eqn:El; [done|].
  apply Nat.eqb_neq in El.
  pose proof (filter_ids_nonempty i (rows st) Hnd) as Hne.
  destruct (filter (λ r, id r ≠ i) (rows st)); simpl; [|lia].
  destruct Hne; [lia|done].
Qed.

(** X25: the page starts with exactly one Entry; removing the only Entry
    changes nothing; adding, editing, pasting and resetting keep at least
    one Entry in every state, and so does removing as long as the
    identifiers of the Entries differ; hence, if [uid()] never returns the
    same identifier twice, there is at least one Entry after any sequence
    of these operations, and after one more. *)
Theorem rows_never_empty :
  length (rows initialState) = 1%nat
  ∧ (∀ st i, length (rows st) = 1%nat → removeRow i st = st)
  ∧ (∀ st a, (∀ i, a ≠ RemoveRow i) →
       (1 ≤ length (rows st))%nat → (1 ≤ length (rows (step st a)))%nat)
  ∧ (∀ st i, NoDup (id <$> rows st) →
       (1 ≤ length (rows st))%nat →
       (1 ≤ length (rows (removeRow i st)))%nat)
  ∧ ((∀ m n, randomId m = randomId n → m = n) →
     ∀ actions,
       (1 ≤ length (rows (run actions)))%nat
       ∧ NoDup (id <$> rows (run actions))
       ∧ ∀ a, (1 ≤ length (rows (step (run actions) a)))%nat).
Proof.
  split_and!.
  - done.
  - intros [rs sub res d] i Hl. unfold removeRow, setRows. simpl in *.
    by rewrite Hl.
  - apply step_keeps_a_row.
  - apply removeRow_keeps_a_row.
  - intros Huid actions.
    assert (Hrun : wellFormed (rows (run actions)) (draws (run actions)))
      by (apply wellFormed_foldl, wellFormed_initial; done).
    split_and!.
    + destruct Hrun as (Hne & _).
      destruct (rows (run actions)); simpl; [done|lia].
    + by destruct Hrun as (_ & Hnd & _).
    + intros a. destruct (wellFormed_step Huid _ a Hrun) as (Hne & _).
      destruct (rows (step (run actions) a)); simpl; [done|lia].
Qed.

(** Without distinct identifiers removal can empty the list: the guard of
    [removeRow] only looks at the length. *)
Remark removeRow_same_identifiers (i : jsstring) (st : PageState) :
  rows st = [ {| id := i; url := [] |}; {| id := i; url := [] |} ] →
  rows (removeRow i st) = [].
Proof.
  intros Hr. simpl. rewrite Hr. simpl.
  rewrite !filter_cons_False by (simpl; tauto). done.
Qed.

(** C5, where the code departs from it: the guard of [removeRow] keeps the
    only Entry, but with two Entries or more it removes every Entry that
    bears the identifier, and nothing makes [uid()] return different
    identifiers.  When the identifier of the added Entry is that of the
    first one, removing either of the two Entries leaves no Entry. *)
Theorem rows_emptied_by_collision :
  randomId 0 = randomId 1 →
  length (rows (run [AddRow])) = 2%nat
  ∧ rows (run [AddRow; RemoveRow (randomId 0)]) = []
  ∧ rows (run [AddRow; RemoveRow (randomId 1)]) = [].
Proof.
  intros Heq.
  assert (Hr : rows (run [AddRow])
               = [ {| id := randomId 0; url := [] |};
                   {| id := randomId 0; url := [] |} ]).
  { unfold run. simpl. by rewrite <- Heq. }
  split; [by rewrite Hr|].
  rewrite <- Heq.
  split; exact (removeRow_same_identifiers (randomId 0) (run [AddRow]) Hr).
Qed.

(** ** Validation before submission *)

Lemma isPrefixOf_app (m b : jsstring) : isPrefixOf m (m ++ b) = true.
Proof.
  induction m as [|c m IH]; simpl; [done|]. by rewrite N.eqb_refl, IH.
Qed.

Lemma includes_unfold (s m : jsstring) :
  includes s m
  = isPrefixOf m s || match s with [] => false | _ :: r => includes r m end.
Proof. by destruct s. Qed.

Lemma includes_app (a m b : jsstring) : includes (a ++ m ++ b) m = true.
Proof.
  induction a as [|c a IH].
  - rewrite app_nil_l, includes_unfold. by rewrite isPrefixOf_app.
  - rewrite <- app_comm_cons, includes_unfold, IH. apply orb_true_r.
Qed.

Lemma isFatal_msgNoUrl (ed : Edition) : isFatal ed (msgNoUrl ed) = true.
Proof. by destruct ed; vm_compute. Qed.

Lemma isFatal_msgInvalid (ed : Edition) (idx : nat) (u : jsstring) :
  isFatal ed (msgInvalid ed idx u) = true.
Proof.
  unfold isFatal.
  assert (includes (msgInvalid ed idx u) (markInvalid ed) = true) as ->;
    [|done].
  destruct ed; unfold msgInvalid.
  - change (lit ") URL形式が壊れてる: " ++ u)
      with (lit ") URL形式が" ++ markInvalid Japanese ++ lit ": " ++ u).
    rewrite (app_assoc (decimal _)), (app_assoc (lit "(")).
    apply includes_app.
  - change (lit " Invalid URL format: " ++ u)
      with (lit " " ++ markInvalid English ++ lit " format: " ++ u).
    rewrite (app_assoc (decimal _)), (app_assoc (lit "#")).
    apply includes_app.
Qed.

Lemma invalidErrors_elem (ed : Edition) (us : list jsstring) (n : nat)
    (u : jsstring) :
  u ∈ us → isValidUrl u = false →
  ∃ idx, msgInvalid ed idx u ∈ invalidErrors ed n us.
Proof.
  intros Hin Hu. revert n.
  induction Hin as [u us | u v us Hin IH]; intros n; simpl.
  - exists n. rewrite Hu. simpl. left.
  - destruct (IH Hu (S n)) as [idx Hidx]. exists idx.
    apply elem_of_app. by right.
Qed.

Lemma filter_fatal_nonempty (ed : Edition) (errors : list jsstring)
    (e : jsstring) :
  e ∈ errors → isFatal ed e = true → List.filter (isFatal ed) errors ≠ [].
Proof.
  intros Hin He Hnil.
  assert (In e (List.filter (isFatal ed) errors)) as Hf.
  { apply filter_In. split; [by apply list_elem_of_In|done]. }
  by rewrite Hnil in Hf.
Qed.

(** C6: when there is no unique URL, or one of them is not a well-formed
    URL, [onSubmit] sends nothing and shows the rejection with all the
    messages of [validate]; with no URL at all, the message that says so is
    among them. *)
Theorem onSubmit_rejects_fatal (ed : Edition) (now : jsstring)
    (fetch : Submission → FetchOutcome) (st : PageState) :
  uniqueUrlsOf (rows st) = []
  ∨ (∃ u, u ∈ uniqueUrlsOf (rows st) ∧ isValidUrl u = false) →
  onSubmit ed now fetch st
  = ({| rows := rows st; submitting := submitting st;
        result := ResultNg (msgRejected ed) (Some (validate ed (rows st))) None;
        draws := draws st |}, [])
  ∧ (uniqueUrlsOf (rows st) = [] → msgNoUrl ed ∈ validate ed (rows st)).
Proof.
  intros Hbad.
  assert (Hno : uniqueUrlsOf (rows st) = [] →
                msgNoUrl ed ∈ validate ed (rows st)).
  { intros Hu. unfold validate. rewrite Hu. simpl. left. }
  split; [|exact Hno].
  assert (Hf : List.filter (isFatal ed) (validate ed (rows st)) ≠ []).
  { destruct Hbad as [Hu | (u & Hin & Hu)].
    - apply (filter_fatal_nonempty ed _ (msgNoUrl ed));
        [by apply Hno | apply isFatal_msgNoUrl].
    - destruct (invalidErrors_elem ed _ 0 u Hin Hu) as [idx Hidx].
      apply (filter_fatal_nonempty ed _ (msgInvalid ed idx u));
        [|apply isFatal_msgInvalid].
      unfold validate. rewrite !elem_of_app. right. by left. }
  unfold onSubmit.
  by destruct (List.filter (isFatal ed) (validate ed (rows st))).
Qed.

(** Otherwise exactly one request goes out, with the unique URLs. *)
Lemma onSubmit_sends_once (ed : Edition) (now : jsstring)
    (fetch : Submission → FetchOutcome) (st : PageState) :
  uniqueUrlsOf (rows st) ≠ [] →
  (∀ u, u ∈ uniqueUrlsOf (rows st) → isValidUrl u = true) →
  snd (onSubmit ed now fetch st)
  = [ {| subApp := lit "Next Asia Link";
         subUrls := uniqueUrlsOf (rows st); subCreatedAt := now |} ].
Proof.
  intros Hne Hall.
  assert (Hinv : ∀ us n, (∀ u, u ∈ us → isValidUrl u = true) →
                         invalidErrors ed n us = []).
  { induction us as [|u us IH]; intros n Hus; simpl; [done|].
    rewrite (Hus u) by left. simpl. apply IH. intros v Hv. apply Hus.
    by right. }
  assert (Hf : List.filter (isFatal ed) (validate ed (rows st)) = []).
  { unfold validate. rewrite (Hinv _ 0%nat Hall).
    destruct (uniqueUrlsOf (rows st)) as [|u0 us0] eqn:Eu; [done|]. simpl.
    destruct (negb _); [|done].
    by destruct ed; vm_compute. }
  unfold onSubmit. by rewrite Hf.
Qed.

(** ** The relay *)

(** C7: without a configured webhook the relay answers 500 with its
    explanation and calls nothing, whatever the request is. *)
Theorem POST_without_webhook (webhook : option jsstring) (now : jsstring)
    (fetch : jsstring → RelayPayload → FetchOutcome) (req : Request) :
  webhook = None ∨ webhook = Some [] →
  POST webhook now fetch req
  = (Returned
       {| code := 500;
          envelope :=
            justMessage
              (lit "N8N_WEBHOOK_URL が未設定（Vercelの環境変数に入れろ）") |},
     []).
Proof. by intros [-> | ->]. Qed.

Lemma traverse_cons_Some {A B : Type} (f : A → option B) (x : A)
    (xs : list A) (us : list B) :
  traverse f (x :: xs) = Some us →
  ∃ y ys, us = y :: ys ∧ f x = Some y ∧ traverse f xs = Some ys.
Proof.
  simpl. destruct (f x) as [y|]; [|done].
  destruct (traverse f xs) as [ys|]; [|done].
  intros [= <-]. by exists y, ys.
Qed.

Lemma traverse_elem_None {A B : Type} (f : A → option B) (x : A)
    (l : list A) :
  x ∈ l → f x = None → traverse f l = None.
Proof.
  intros Hx Hf. induction Hx as [x l | x y l Hx IH]; simpl.
  - by rewrite Hf.
  - destruct (f y); [|done]. by rewrite IH.
Qed.

Lemma urls_of_body (body : JValue) :
  (¬ hasUrls body
   ∧ ∃ strings, asStringArray (prop (asObject body) (lit "urls"))
                = Returned strings
                ∧ default [] strings = [])
  ∨ (∃ x xs, prop (asObject body) (lit "urls") = Some (JArr (x :: xs))).
Proof.
  unfold hasUrls.
  destruct (prop (asObject body) (lit "urls")) as [[| | | |[|x xs]|]|] eqn:E;
    try (left; split; [by intros (? & ? & ?) | by eexists]).
  right. by exists x, xs.
Qed.

Lemma POST_without_urls_aux (w now : jsstring)
    (fetch : jsstring → RelayPayload → FetchOutcome) (req : Request)
    (body : JValue) :
  truthy w = true →
  JSON_parse (reqBody req) = Some body →
  ¬ hasUrls body →
  POST (Some w) now fetch req
  = (Returned {| code := 400; envelope := justMessage (lit "urls が空") |},
     []).
Proof.
  intros Hw Hb Hu. unfold POST. simpl default at 1. rewrite Hw, Hb. simpl negb.
  cbv iota zeta.
  destruct (urls_of_body body) as [(_ & strings & -> & ->) | (x & xs & Hx)];
    [done|].
  destruct Hu. by exists x, xs.
Qed.

(** C8: with the webhook configured and a body that decodes, the relay
    answers 400 with its explanation and calls nothing when the decoded
    body has no non-empty array at [urls]: when [urls] is missing, is not
    an array, or is the empty array. *)
Theorem POST_without_urls (w now : jsstring)
    (fetch : jsstring → RelayPayload → FetchOutcome) (req : Request)
    (body : JValue) :
  truthy w = true →
  JSON_parse (reqBody req) = Some body →
  prop (asObject body) (lit "urls") = None
  ∨ (∃ v, prop (asObject body) (lit "urls") = Some v
          ∧ ∀ items, v ≠ JArr items)
  ∨ prop (asObject body) (lit "urls") = Some (JArr []) →
  POST (Some w) now fetch req
  = (Returned {| code := 400; envelope := justMessage (lit "urls が空") |},
     []).
Proof.
  intros Hw Hb Hu. apply (POST_without_urls_aux _ _ _ _ body); [done|done|].
  intros (x & xs & Hx). rewrite Hx in Hu.
  destruct Hu as [Hu | [(v & Hv & Hn) | Hu]]; [done| |done].
  injection Hv as <-. by destruct (Hn (x :: xs)).
Qed.

Lemma POST_forwarding (w now : jsstring)
    (fetch : jsstring → RelayPayload → FetchOutcome) (req : Request)
    (body x : JValue) (xs : list JValue) (us : list jsstring) :
  truthy w = true →
  JSON_parse (reqBody req) = Some body →
  prop (asObject body) (lit "urls") = Some (JArr (x :: xs)) →
  traverse toStr (x :: xs) = Some us →
  let payload :=
    {| app := default (lit "Next Asia Link")
                      (asString (prop (asObject body) (lit "app")));
       urls := us;
       meta_created_at :=
         default now (asString (prop (asObject body) (lit "created_at")));
       meta_user_agent := default [] (reqUserAgent req);
       meta_ip_hint := default [] (reqForwardedFor req) |} in
  POST (Some w) now fetch req
  = (Returned
       match fetch w payload with
       | Threw msg =>
         {| code := 502;
            envelope := {| envMessage := lit "Webhook転送で例外";
                           envStatus := None; envDetails := Some [msg];
                           envBody := None |} |}
       | Responded status text =>
         if negb (resOk status) then
           {| code := 502;
              envelope := {| envMessage := lit "n8n がエラー返した";
                             envStatus := Some status; envDetails := None;
                             envBody := Some (safeJsonParse text) |} |}
         else
           {| code := 200;
              envelope := {| envMessage := lit "forwarded";
                             envStatus := Some status; envDetails := None;
                             envBody := Some (safeJsonParse text) |} |}
       end, [(w, payload)]).
Proof.
  intros Hw Hb Hx Hus payload. unfold POST. simpl default at 1.
  rewrite Hw, Hb. simpl negb. cbv iota zeta.
  unfold asStringArray, getStringArray. rewrite Hx, Hus.
  destruct (traverse_cons_Some _ _ _ _ Hus) as (y & ys & -> & _ & _).
  reflexivity.
Qed.

Lemma POST_throwing (w now : jsstring)
    (fetch : jsstring → RelayPayload → FetchOutcome) (req : Request)
    (body : JValue) (items : list JValue) :
  truthy w = true →
  JSON_parse (reqBody req) = Some body →
  prop (asObject body) (lit "urls") = Some (JArr items) →
  traverse toStr items = None →
  POST (Some w) now fetch req = (Thrown typeErrorMessage, []).
Proof.
  intros Hw Hb Hx Hus. unfold POST. simpl default at 1.
  rewrite Hw, Hb. simpl negb. cbv iota zeta.
  unfold asStringArray, getStringArray. by rewrite Hx, Hus.
Qed.

(** C10, as the code has it: when an element of [urls] is an object with
    a property [toString] of its own, [String] throws on it before the
    [try]: the handler throws, answers with no envelope, and forwards
    nothing, although [urls] is a non-empty array. *)
Theorem POST_element_throws (w now : jsstring)
    (fetch : jsstring → RelayPayload → FetchOutcome) (req : Request)
    (body : JValue) (items : list JValue)
    (fs : list (jsstring * JValue)) (v : JValue) :
  truthy w = true →
  JSON_parse (reqBody req) = Some body →
  prop (asObject body) (lit "urls") = Some (JArr items) →
  JObj fs ∈ items →
  field (lit "toString") fs = Some v →
  POST (Some w) now fetch req = (Thrown typeErrorMessage, []).
Proof.
  intros Hw Hb Hx Hin Hf. apply (POST_throwing _ _ _ _ body items);
    [done|done|done|].
  apply (traverse_elem_None toStr (JObj fs)); [done|]. simpl. by rewrite Hf.
Qed.

(** X23: with the webhook configured and a body that decodes, the relay
    answers 400 exactly when the decoded value has no non-empty array at
    [urls]; when it has one and [String] turns every element into a
    string, the relay forwards once, with these strings, and with [app] and
    [created_at] taken from the body when they are strings and replaced by
    "Next Asia Link" and the current time when they are not; when [String]
    throws on an element, the handler throws and forwards nothing. *)
Theorem POST_shape_validation (w now : jsstring)
    (fetch : jsstring → RelayPayload → FetchOutcome) (req : Request)
    (body : JValue) :
  truthy w = true →
  JSON_parse (reqBody req) = Some body →
  ((∃ r, fst (POST (Some w) now fetch req) = Returned r ∧ code r = 400%Z)
   ↔ ¬ hasUrls body)
  ∧ (∀ x xs us,
       prop (asObject body) (lit "urls") = Some (JArr (x :: xs)) →
       traverse toStr (x :: xs) = Some us →
       snd (POST (Some w) now fetch req)
       = [(w,
           {| app := match prop (asObject body) (lit "app") with
                     | Some (JStr s) => s
                     | _ => lit "Next Asia Link"
                     end;
              urls := us;
              meta_created_at :=
                match prop (asObject body) (lit "created_at") with
                | Some (JStr s) => s
                | _ => now
                end;
              meta_user_agent := default [] (reqUserAgent req);
              meta_ip_hint := default [] (reqForwardedFor req) |})])
  ∧ (∀ x xs,
       prop (asObject body) (lit "urls") = Some (JArr (x :: xs)) →
       traverse toStr (x :: xs) = None →
       POST (Some w) now fetch req = (Thrown typeErrorMessage, [])).
Proof.
  intros Hw Hb. split_and!.
  - split.
    + intros (r & Hr & Hc) (x & xs & Hx).
      destruct (traverse toStr (x :: xs)) as [us|] eqn:Hus.
      * rewrite (POST_forwarding _ _ _ _ _ _ _ _ Hw Hb Hx Hus) in Hr.
        simpl in Hr. injection Hr as <-.
        destruct (fetch _ _) as [msg|status text]; [done|].
        by destruct (resOk status).
      * by rewrite (POST_throwing _ _ _ _ _ _ Hw Hb Hx Hus) in Hr.
    + intros Hu. rewrite (POST_without_urls_aux _ _ _ _ _ Hw Hb Hu).
      by eexists.
  - intros x xs us Hx Hus.
    rewrite (POST_forwarding _ _ _ _ _ _ _ _ Hw Hb Hx Hus). simpl.
    do 2 f_equal.
    by destruct (prop (asObject body) (lit "app")) as [[]|];
       destruct (prop (asObject body) (lit "created_at")) as [[]|].
  - intros x xs Hx Hus. by apply (POST_throwing _ _ _ _ body (x :: xs)).
Qed.

(** C3: the text of the webhook's response is decoded, and kept as it is
    when it does not decode; a status outside 200..299 gives 502 with the
    failure message, the status and the body; a status inside gives 200
    with "forwarded", the status and the body. *)
Theorem POST_downstream_response (w now : jsstring)
    (fetch : jsstring → RelayPayload → FetchOutcome) (req : Request)
    (body x : JValue) (xs : list JValue) (us : list jsstring)
    (status : Z) (text : jsstring) :
  truthy w = true →
  JSON_parse (reqBody req) = Some body →
  prop (asObject body) (lit "urls") = Some (JArr (x :: xs)) →
  traverse toStr (x :: xs) = Some us →
  (∀ payload, fetch w payload = Responded status text) →
  safeJsonParse text = default (JStr text) (JSON_parse text)
  ∧ (¬ (200 ≤ status ≤ 299)%Z →
     fst (POST (Some w) now fetch req)
     = Returned
         {| code := 502;
            envelope := {| envMessage := lit "n8n がエラー返した";
                           envStatus := Some status; envDetails := None;
                           envBody := Some (safeJsonParse text) |} |})
  ∧ ((200 ≤ status ≤ 299)%Z →
     fst (POST (Some w) now fetch req)
     = Returned
         {| code := 200;
            envelope := {| envMessage := lit "forwarded";
                           envStatus := Some status; envDetails := None;
                           envBody := Some (safeJsonParse text) |} |}).
Proof.
  intros Hw Hb Hx Hus Hf.
  rewrite (POST_forwarding _ _ _ _ _ _ _ _ Hw Hb Hx Hus), Hf. simpl fst.
  split_and!.
  - unfold safeJsonParse. by destruct (JSON_parse text).
  - intros Hs. unfold resOk.
    destruct (200 <=? status)%Z eqn:E1; destruct (status <=? 299)%Z eqn:E2;
      simpl; try done.
    apply Z.leb_le in E1, E2. lia.
  - intros [Hlo Hhi]. unfold resOk.
    apply Z.leb_le in Hlo, Hhi. by rewrite Hlo, Hhi.
Qed.

(** ** What the page shows for a failed submission *)

(** C1, as the code has it: when the relay's failure response has no
    non-empty [details] array, the page shows the fixed failure text, no
    details and no body, whatever [message] the response holds. *)
Theorem surface_failure_without_details (ed : Edition) (status : Z)
    (text : jsstring) :
  resOk status = false →
  (∀ x xs,
     prop (asObject (default (JObj []) (JSON_parse text))) (lit "details")
     ≠ Some (JArr (x :: xs))) →
  surface ed (Responded status text)
  = ResultNg (msgSendFailed ed) (Some []) None.
Proof.
  intros Hs Hd. unfold surface, parseApi, getStringArray. rewrite Hs.
  destruct (prop (asObject (default (JObj []) (JSON_parse text)))
                 (lit "details")) as [[| | | |[|x xs]|]|] eqn:E;
    try reflexivity.
  by destruct (Hd x xs).
Qed.

(** ** More on normalisation and deduplication *)

Lemma hasScheme_https (v : jsstring) : hasScheme (lit "https://" ++ v) = true.
Proof. reflexivity. Qed.

Lemma normalizeUrl_trimmed (s : jsstring) :
  trim (normalizeUrl s) = normalizeUrl s.
Proof.
  destruct (normalizeUrl_cases s)
    as [[_ ->] | [(Hne & Hs & ->) | (Hne & Hs & ->)]].
  - reflexivity.
  - apply trim_idem.
  - apply trim_fix; [reflexivity|].
    apply reverse_app_last; [done | apply trim_last].
Qed.

Lemma normalizeUrl_hasScheme (s : jsstring) :
  normalizeUrl s ≠ [] → hasScheme (normalizeUrl s) = true.
Proof.
  destruct (normalizeUrl_cases s)
    as [[_ ->] | [(Hne & Hs & ->) | (Hne & Hs & ->)]]; [done|done|].
  intros _. apply hasScheme_https.
Qed.

(** X1: [normalizeUrl] gives the empty string exactly for the inputs that
    are blank once trimmed; any other result starts with [http://] or
    [https://] in some letter case, and no result has white space at either
    end. *)
Theorem normalizeUrl_shape (s : jsstring) :
  (normalizeUrl s = [] ↔ trim s = [])
  ∧ (normalizeUrl s ≠ [] → hasScheme (normalizeUrl s) = true)
  ∧ trim (normalizeUrl s) = normalizeUrl s.
Proof.
  split_and!.
  - destruct (normalizeUrl_cases s)
      as [[Ht ->] | [(Hne & Hs & ->) | (Hne & Hs & ->)]].
    + done.
    + done.
    + split; [discriminate | done].
  - apply normalizeUrl_hasScheme.
  - apply normalizeUrl_trimmed.
Qed.

Lemma urlsOf_elem (rs : list Row) (u : jsstring) :
  u ∈ urlsOf rs ↔ u ≠ [] ∧ ∃ r, r ∈ rs ∧ u = normalizeUrl (url r).
Proof.
  unfold urlsOf. rewrite list_elem_of_In, filter_In, in_map_iff.
  split.
  - intros [(r & <- & Hr) Hu]. split.
    + by destruct (normalizeUrl (url r)).
    + exists r. by rewrite list_elem_of_In.
  - intros (Hu & r & Hr & ->). split.
    + exists r. by rewrite <- list_elem_of_In.
    + by destruct (normalizeUrl (url r)).
Qed.

Lemma arrayFromSet_elem (l : list jsstring) (x : jsstring) :
  x ∈ arrayFromSet l ↔ x ∈ l.
Proof.
  unfold arrayFromSet. rewrite foldl_setAdd_elem, elem_of_nil. tauto.
Qed.

(** X2: every URL that is counted, shown for validation or submitted comes
    from some Entry by [normalizeUrl], is not empty and starts with a
    scheme; and every Entry that is not blank is represented. *)
Theorem uniqueUrls_normalized (rs : list Row) :
  (∀ u, u ∈ uniqueUrlsOf rs →
        u ≠ [] ∧ hasScheme u = true ∧ trim u = u
        ∧ ∃ r, r ∈ rs ∧ u = normalizeUrl (url r))
  ∧ (∀ r, r ∈ rs → trim (url r) ≠ [] →
          normalizeUrl (url r) ∈ uniqueUrlsOf rs).
Proof.
  split.
  - intros u Hu. apply arrayFromSet_elem, urlsOf_elem in Hu
      as (Hne & r & Hr & ->).
    split_and!; [done| |apply normalizeUrl_trimmed|by exists r].
    by apply normalizeUrl_hasScheme.
  - intros r Hr Ht. apply arrayFromSet_elem, urlsOf_elem. split; [|by exists r].
    destruct (normalizeUrl_cases (url r))
      as [[Ht' _] | [(_ & _ & ->) | (_ & _ & ->)]]; done.
Qed.

Lemma foldl_setAdd_length (l acc : list jsstring) :
  (length (foldl setAdd acc l) ≤ length acc + length l)%nat.
Proof.
  revert acc. induction l as [|u l IH]; intros acc; simpl; [lia|].
  specialize (IH (setAdd acc u)). unfold setAdd in *.
  case_bool_decide; [lia|]. rewrite length_app in IH. simpl in IH. lia.
Qed.

Lemma foldl_setAdd_NoDup_id (l acc : list jsstring) :
  NoDup (acc ++ l) → foldl setAdd acc l = acc ++ l.
Proof.
  revert acc. induction l as [|u l IH]; intros acc Hnd; simpl.
  - by rewrite app_nil_r.
  - rewrite setAdd_new.
    + rewrite IH; rewrite <- app_assoc; done.
    + apply NoDup_app in Hnd as (_ & Hd & _). intros Hu.
      apply (Hd u Hu). left.
Qed.

Lemma foldl_setAdd_full_length (l acc : list jsstring) :
  NoDup acc →
  length (foldl setAdd acc l) = (length acc + length l)%nat →
  NoDup (acc ++ l).
Proof.
  revert acc. induction l as [|u l IH]; intros acc Hacc Hlen; simpl in *.
  - by rewrite app_nil_r.
  - destruct (decide (u ∈ acc)) as [Hu|Hu].
    + rewrite (setAdd_old acc u Hu) in Hlen.
      pose proof (foldl_setAdd_length l acc). lia.
    + rewrite (setAdd_new acc u Hu) in Hlen.
      rewrite (assoc_L (++) acc [u] l : acc ++ u :: l = (acc ++ [u]) ++ l).
      apply IH.
      * apply NoDup_app. split_and!; [done| |apply NoDup_singleton].
        intros x Hx ->%list_elem_of_singleton. done.
      * rewrite length_app. simpl. lia.
Qed.

(** X3: deduplication never lengthens the list, keeps the length exactly
    when the list had no duplicate, and then returns the list itself;
    deduplicating twice is deduplicating once. *)
Theorem arrayFromSet_length (l : list jsstring) :
  (length (arrayFromSet l) ≤ length l)%nat
  ∧ (length (arrayFromSet l) = length l ↔ NoDup l)
  ∧ (NoDup l → arrayFromSet l = l)
  ∧ arrayFromSet (arrayFromSet l) = arrayFromSet l.
Proof.
  unfold arrayFromSet. split_and!.
  - apply (foldl_setAdd_length l []).
  - split.
    + intros Hlen. apply (foldl_setAdd_full_length l []);
        [apply NoDup_nil_2 | done].
    + intros Hnd. by rewrite (foldl_setAdd_NoDup_id l []).
  - intros Hnd. by apply (foldl_setAdd_NoDup_id l []).
  - apply (foldl_setAdd_NoDup_id _ []). simpl.
    apply foldl_setAdd_NoDup, NoDup_nil_2.
Qed.

(** ** More on validation *)

Lemma msgInvalid_head (ed : Edition) (idx : nat) (u : jsstring) :
  head (msgInvalid ed idx u) = Some (match ed with Japanese => 40 | English => 35 end).
Proof. by destruct ed. Qed.

Lemma msgInvalid_not_notice (ed : Edition) (idx : nat) (u : jsstring) :
  msgInvalid ed idx u ≠ msgDuplicates ed.
Proof.
  intros E. apply (f_equal head) in E. rewrite msgInvalid_head in E.
  by destruct ed.
Qed.

Lemma msgNoUrl_not_notice (ed : Edition) : msgNoUrl ed ≠ msgDuplicates ed.
Proof. intros E. apply (f_equal head) in E. by destruct ed. Qed.

Lemma isFatal_msgDuplicates (ed : Edition) :
  isFatal ed (msgDuplicates ed) = false.
Proof. by destruct ed; vm_compute. Qed.

Lemma invalidErrors_lookup (ed : Edition) (us : list jsstring) (n : nat)
    (e : jsstring) :
  e ∈ invalidErrors ed n us
  ↔ ∃ k u, us !! k = Some u ∧ isValidUrl u = false
           ∧ e = msgInvalid ed (n + k) u.
Proof.
  revert n. induction us as [|v us IH]; intros n; simpl.
  - rewrite elem_of_nil. split; [done|]. by intros (k & u & Hk & _).
  - rewrite elem_of_app, IH. split.
    + intros [He | (k & u & Hk & Hu & ->)].
      * destruct (isValidUrl v) eqn:Ev; simpl in He;
          [by apply elem_of_nil in He|].
        apply list_elem_of_singleton in He as ->.
        exists 0%nat, v. by rewrite Nat.add_0_r.
      * exists (S k), u. split_and!; [done|done|]. f_equal. lia.
    + intros ([|k] & u & Hk & Hu & ->); simpl in Hk.
      * injection Hk as ->. left. rewrite Hu, Nat.add_0_r. simpl. left.
      * right. exists k, u. split_and!; [done|done|]. f_equal. lia.
Qed.

Lemma validate_elem (ed : Edition) (rs : list Row) (e : jsstring) :
  e ∈ validate ed rs
  ↔ (uniqueUrlsOf rs = [] ∧ e = msgNoUrl ed)
    ∨ (∃ k u, uniqueUrlsOf rs !! k = Some u ∧ isValidUrl u = false
              ∧ e = msgInvalid ed k u)
    ∨ (length (urlsOf rs) ≠ length (uniqueUrlsOf rs) ∧ e = msgDuplicates ed).
Proof.
  unfold validate. rewrite !elem_of_app, invalidErrors_lookup.
  assert (H1 : e ∈ (if (length (uniqueUrlsOf rs) =? 0)%nat
                    then [msgNoUrl ed] else [])
               ↔ uniqueUrlsOf rs = [] ∧ e = msgNoUrl ed).
  { destruct (uniqueUrlsOf rs); simpl.
    - rewrite list_elem_of_singleton. tauto.
    - rewrite elem_of_nil. split; [done | by intros [? _]]. }
  assert (H3 : e ∈ (if negb (length (urlsOf rs)
                             =? length (uniqueUrlsOf rs))%nat
                    then [msgDuplicates ed] else [])
               ↔ length (urlsOf rs) ≠ length (uniqueUrlsOf rs)
                 ∧ e = msgDuplicates ed).
  { destruct (length (urlsOf rs) =? length (uniqueUrlsOf rs))%nat eqn:El;
      simpl.
    - apply Nat.eqb_eq in El. rewrite elem_of_nil.
      split; [done | by intros [Hl _]].
    - apply Nat.eqb_neq in El. rewrite list_elem_of_singleton. tauto. }
  rewrite H1, H3. done.
Qed.

(** X4: [validate] reports three kinds of message and nothing else: the
    missing-URL message exactly when there is no unique URL, for each
    unique URL that is not well formed a message carrying its position in
    the unique list counted from one, and the duplicate notice exactly
    when two Entries normalise to the same URL. *)
Theorem validate_messages (ed : Edition) (rs : list Row) :
  (msgNoUrl ed ∈ validate ed rs ↔ uniqueUrlsOf rs = [])
  ∧ (∀ k u, uniqueUrlsOf rs !! k = Some u → isValidUrl u = false →
            lit (match ed with Japanese => "(" | English => "#" end)
            ++ decimal (k + 1)
            ++ lit (match ed with
                    | Japanese => ") URL形式が壊れてる: "
                    | English => " Invalid URL format: "
                    end)
            ++ u ∈ validate ed rs)
  ∧ (msgDuplicates ed ∈ validate ed rs ↔ ¬ NoDup (urlsOf rs))
  ∧ (∀ e, e ∈ validate ed rs →
          e = msgNoUrl ed ∨ e = msgDuplicates ed
          ∨ ∃ k u, uniqueUrlsOf rs !! k = Some u ∧ isValidUrl u = false
                   ∧ e = msgInvalid ed k u).
Proof.
  assert (Hlen : length (urlsOf rs) ≠ length (uniqueUrlsOf rs)
                 ↔ ¬ NoDup (urlsOf rs)).
  { unfold uniqueUrlsOf, arrayFromSet. split.
    - intros Hl Hnd. by rewrite (foldl_setAdd_NoDup_id _ [] Hnd) in Hl.
    - intros Hnd Hl. apply Hnd.
      apply (foldl_setAdd_full_length _ []); [apply NoDup_nil_2 | done]. }
  split_and!.
  - rewrite validate_elem. split; [|by left].
    intros [[Hu _] | [(k & u & _ & _ & E) | [_ E]]]; [done| |].
    + apply (f_equal head) in E. rewrite msgInvalid_head in E.
      by destruct ed.
    + destruct (msgNoUrl_not_notice ed). exact E.
  - intros k u Hk Hu. apply validate_elem. right. left. exists k, u.
    split_and!; [done|done|]. by destruct ed.
  - rewrite validate_elem, <- Hlen. split; [|by right; right].
    intros [[_ E] | [(k & u & _ & _ & E) | [Hl _]]]; [| |done].
    + destruct (msgNoUrl_not_notice ed). exact (eq_sym E).
    + destruct (msgInvalid_not_notice ed k u). exact (eq_sym E).
  - intros e He. apply validate_elem in He
      as [[_ ->] | [(k & u & Hk & Hu & ->) | [_ ->]]].
    + by left.
    + right. right. by exists k, u.
    + right. by left.
Qed.

(** X5: [validate] has nothing to say exactly when there is a unique URL,
    every unique URL is well formed, and no two Entries normalise to the
    same URL. *)
Theorem validate_clean (ed : Edition) (rs : list Row) :
  validate ed rs = []
  ↔ uniqueUrlsOf rs ≠ []
    ∧ (∀ u, u ∈ uniqueUrlsOf rs → isValidUrl u = true)
    ∧ NoDup (urlsOf rs).
Proof.
  split.
  - intros Hv.
    assert (Hno : ∀ e, e ∉ validate ed rs)
      by (intros e; rewrite Hv; apply not_elem_of_nil).
    split_and!.
    + intros Hu. apply (Hno (msgNoUrl ed)), validate_elem. by left.
    + intros u [k Hk]%list_elem_of_lookup.
      destruct (isValidUrl u) eqn:Eu; [done|].
      destruct (Hno (msgInvalid ed k u)). apply validate_elem.
      right. left. by exists k, u.
    + destruct (decide (length (urlsOf rs) = length (uniqueUrlsOf rs)))
        as [Hl|Hl].
      * apply (foldl_setAdd_full_length _ []); [apply NoDup_nil_2 | done].
      * destruct (Hno (msgDuplicates ed)). apply validate_elem.
        right. by right.
  - intros (Hne & Hall & Hnd).
    destruct (validate ed rs) as [|e es] eqn:Ev; [done|].
    assert (He : e ∈ validate ed rs) by (rewrite Ev; left).
    apply validate_elem in He
      as [[Hu _] | [(k & u & Hk & Hu & _) | [Hl _]]].
    + done.
    + rewrite (Hall u) in Hu; [done|]. apply list_elem_of_lookup. by exists k.
    + destruct Hl. unfold uniqueUrlsOf, arrayFromSet.
      by rewrite (foldl_setAdd_NoDup_id _ [] Hnd).
Qed.

(** X6: Entries that are blank once trimmed count as no URL: when every
    Entry is blank, [validate] gives the missing-URL message alone, and
    [onSubmit] shows the rejection with it and sends nothing.  This is the
    state of the page when it opens and after [clearAll]. *)
Theorem blank_entries_rejected (ed : Edition) (now : jsstring)
    (fetch : Submission → FetchOutcome) (st : PageState) :
  (∀ r, r ∈ rows st → trim (url r) = []) →
  validate ed (rows st) = [msgNoUrl ed]
  ∧ onSubmit ed now fetch st
    = ({| rows := rows st; submitting := submitting st;
          result := ResultNg (msgRejected ed) (Some [msgNoUrl ed]) None;
          draws := draws st |}, []).
Proof.
  intros Hblank.
  assert (Hu : urlsOf (rows st) = []).
  { destruct (urlsOf (rows st)) as [|u us] eqn:Eu; [done|].
    assert (Hin : u ∈ urlsOf (rows st)) by (rewrite Eu; left).
    apply urlsOf_elem in Hin as (Hne & r & Hr & ->).
    destruct (normalizeUrl_cases (url r))
      as [[_ E] | [(Ht & _) | (Ht & _)]]; [done| |];
      by rewrite (Hblank r Hr) in Ht. }
  assert (Hv : validate ed (rows st) = [msgNoUrl ed]).
  { unfold validate, uniqueUrlsOf. by rewrite Hu. }
  split; [done|]. unfold onSubmit. rewrite Hv. simpl.
  by rewrite isFatal_msgNoUrl.
Qed.

(** X8: whatever happens, [onSubmit] leaves the Entries and their
    identifiers alone, sends at most one request, and ends with a result to
    show; when a request went out the page is no longer submitting. *)
Theorem onSubmit_effects (ed : Edition) (now : jsstring)
    (fetch : Submission → FetchOutcome) (st : PageState) :
  rows (fst (onSubmit ed now fetch st)) = rows st
  ∧ draws (fst (onSubmit ed now fetch st)) = draws st
  ∧ (length (snd (onSubmit ed now fetch st)) ≤ 1)%nat
  ∧ result (fst (onSubmit ed now fetch st)) ≠ ResultNull
  ∧ (snd (onSubmit ed now fetch st) ≠ [] →
     submitting (fst (onSubmit ed now fetch st)) = false).
Proof.
  unfold onSubmit.
  destruct (List.filter (isFatal ed) (validate ed (rows st))); simpl.
  - split_and!; [done|done|lia| |done].
    unfold surface. destruct (fetch _) as [msg|status text]; [done|].
    destruct (parseApi _) as [parsed|msg]; [|done].
    by destruct (negb (resOk status)).
  - split_and!; [done|done|lia|done|done].
Qed.

(** ** More on pasting *)

Lemma matchSeparator_unit (c : N) (r : jsstring) :
  matchSeparator (c :: r) = None → isSeparatorUnit c = false.
Proof.
  intros Hm. unfold isSeparatorUnit.
  destruct (c =? 10) eqn:E1; [apply N.eqb_eq in E1; by subst|].
  destruct (c =? 44) eqn:E2; [apply N.eqb_eq in E2; by subst|].
  destruct (c =? 9) eqn:E3; [apply N.eqb_eq in E3; by subst|].
  destruct (c =? 32) eqn:E4; [apply N.eqb_eq in E4; by subst|].
  done.
Qed.

Lemma matchSeparator_None (c : N) (r : jsstring) :
  isSeparatorUnit c = false → head r ≠ Some 10 →
  matchSeparator (c :: r) = None.
Proof.
  intros Hc Hr. unfold matchSeparator.
  repeat case_match; subst; try reflexivity;
    try (exfalso; vm_compute in Hc; discriminate Hc).
  all: by destruct Hr.
Qed.

Lemma hasSeparator_units (p : jsstring) :
  Forall (λ c, isSeparatorUnit c = false) p → hasSeparator p = false.
Proof.
  induction 1 as [|c r Hc Hr IH]; [done|].
  rewrite hasSeparator_cons, matchSeparator_None; [done|done|].
  destruct Hr as [|d r' Hd _]; [done|]. simpl. intros [= ->]. done.
Qed.

Lemma splitFrom_units (t : jsstring) (skip : nat) (cur p : jsstring) :
  Forall (λ c, isSeparatorUnit c = false) cur →
  p ∈ splitFrom skip cur t →
  Forall (λ c, isSeparatorUnit c = false) p.
Proof.
  revert skip cur. induction t as [|c r IH]; intros skip cur Hcur Hp.
  - simpl in Hp. apply list_elem_of_singleton in Hp as ->.
    by apply Forall_reverse.
  - destruct skip as [|k].
    + rewrite splitFrom_cons in Hp.
      destruct (matchSeparator (c :: r)) as [n|] eqn:Em.
      * apply elem_of_cons in Hp as [-> | Hp].
        -- by apply Forall_reverse.
        -- by apply (IH (pred n) [] (Forall_nil_2 _)).
      * apply (IH 0%nat (c :: cur)); [|done].
        apply Forall_cons. split; [|done].
        by apply (matchSeparator_unit c r).
    + simpl in Hp. by apply (IH k cur).
Qed.

Lemma trim_Forall (P : N → Prop) (s : jsstring) :
  Forall P s → Forall P (trim s).
Proof.
  intros Hs. unfold trim.
  destruct (trimStart_suffix s) as [w Hw]. rewrite Hw in Hs.
  apply Forall_app in Hs as [_ Hs].
  destruct (trimEnd_prefix (trimStart s)) as [w' Hw']. rewrite Hw' in Hs.
  by apply Forall_app in Hs as [Hs _].
Qed.

(** X9: every token of a paste is a non-empty text without white space at
    its ends and without line feed, comma, tab or space inside; pasted by
    itself, such a token is left to the default paste. *)
Theorem pasteParts_tokens (t p : jsstring) :
  p ∈ pasteParts t →
  p ≠ [] ∧ trim p = p
  ∧ (∀ c, c ∈ p → c ≠ 10 ∧ c ≠ 44 ∧ c ≠ 9 ∧ c ≠ 32)
  ∧ (∀ idx st, onPaste idx p st = (false, st)).
Proof.
  unfold pasteParts. rewrite list_elem_of_In, filter_In, in_map_iff.
  intros [(q & <- & Hq) Hne].
  assert (Hu : Forall (λ c, isSeparatorUnit c = false) (trim q)).
  { apply trim_Forall, (splitFrom_units t 0 []); [done|].
    by apply list_elem_of_In. }
  split_and!.
  - by destruct (trim q).
  - apply trim_idem.
  - intros c Hc. rewrite Forall_forall in Hu. specialize (Hu c Hc).
    unfold isSeparatorUnit in Hu.
    repeat (apply orb_false_iff in Hu as [Hu ?]).
    rewrite !N.eqb_neq in *. done.
  - intros idx st. unfold onPaste. by rewrite (hasSeparator_units _ Hu).
Qed.

(** X10: a paste that holds a separator but at most one token is
    intercepted all the same, and then nothing changes: the text reaches no
    Entry. *)
Theorem onPaste_swallowed (idx : nat) (t : jsstring) (st : PageState) :
  hasSeparator t = true → (length (pasteParts t) ≤ 1)%nat →
  onPaste idx t st = (true, st).
Proof.
  intros Hs Hl. unfold onPaste, pasteMany. rewrite Hs.
  destruct (pasteParts t) as [|first [|second rest]]; [done|done|].
  simpl in Hl. lia.
Qed.

(** ** More on the Entry list *)

Lemma filter_all (i : jsstring) (rs : list Row) :
  (∀ r, r ∈ rs → id r ≠ i) → filter (λ r, id r ≠ i) rs = rs.
Proof.
  induction rs as [|r rs IH]; intros Hall; [done|].
  rewrite filter_cons_True by (apply Hall; left).
  f_equal. apply IH. intros r' Hr'. apply Hall. by right.
Qed.

Lemma filter_one (i : jsstring) (rs : list Row) :
  NoDup (id <$> rs) → i ∈ id <$> rs →
  S (length (filter (λ r, id r ≠ i) rs)) = length rs.
Proof.
  induction rs as [|r rs IH]; simpl.
  - intros _ Hi. by apply elem_of_nil in Hi.
  - intros [Hr Hnd]%NoDup_cons Hi. rewrite filter_cons.
    destruct (decide (id r ≠ i)) as [Hne|Heq].
    + simpl. f_equal. apply IH; [done|].
      apply elem_of_cons in Hi as [Hi|Hi]; [congruence|done].
    + apply dec_stable in Heq. subst i.
      rewrite filter_all; [done|].
      intros r' Hr' Heq. apply Hr. rewrite <- Heq.
      by apply list_elem_of_fmap_2.
Qed.

(** X11: [removeRow] with an identifier that no Entry has changes
    nothing; with more than one Entry it keeps, in order, exactly the
    Entries with another identifier; and when the identifiers differ and one
    of them is removed, there is exactly one Entry less. *)
Theorem removeRow_effect (i : jsstring) (st : PageState) :
  ((∀ r, r ∈ rows st → id r ≠ i) → rows (removeRow i st) = rows st)
  ∧ (length (rows st) ≠ 1%nat →
     rows (removeRow i st) = filter (λ r, id r ≠ i) (rows st))
  ∧ (NoDup (id <$> rows st) → (2 ≤ length (rows st))%nat →
     i ∈ id <$> rows st →
     S (length (rows (removeRow i st))) = length (rows st)).
Proof.
  simpl. split_and!.
  - intros Hall. destruct (length (rows st) =? 1)%nat; [done|].
    by apply filter_all.
  - intros Hl. apply Nat.eqb_neq in Hl. by rewrite Hl.
  - intros Hnd Hl Hi.
    destruct (length (rows st) =? 1)%nat eqn:El;
      [apply Nat.eqb_eq in El; lia|].
    by apply filter_one.
Qed.

Lemma map_lookup_row (f : Row → Row) (rs : list Row) (k : nat) :
  map f rs !! k = f <$> rs !! k.
Proof.
  revert k. induction rs as [|r rs IH]; intros [|k]; simpl; done.
Qed.

(** X12: [setUrl] replaces the text of the Entries with the given
    identifier and nothing else: the Entries keep their number, order and
    identifiers, the others keep their text; an identifier that no Entry
    has changes nothing, and a second edit of the same Entry overrides the
    first. *)
Theorem setUrl_effect (i u : jsstring) (st : PageState) :
  map id (rows (setUrl i u st)) = map id (rows st)
  ∧ (∀ k r, rows st !! k = Some r →
            rows (setUrl i u st) !! k
            = Some (if bool_decide (id r = i)
                    then {| id := id r; url := u |} else r))
  ∧ ((∀ r, r ∈ rows st → id r ≠ i) → rows (setUrl i u st) = rows st)
  ∧ (∀ u', setUrl i u' (setUrl i u st) = setUrl i u' st).
Proof.
  split_and!.
  - simpl. induction (rows st) as [|r rs IH]; [done|]. simpl. f_equal; [|done].
    by case_bool_decide.
  - intros k r Hk. simpl. by rewrite map_lookup_row, Hk.
  - intros Hall. simpl. induction (rows st) as [|r rs IH]; [done|]. simpl.
    rewrite bool_decide_eq_false_2 by (apply Hall; left).
    f_equal. apply IH. intros r' Hr'. apply Hall. by right.
  - intros u'. unfold setUrl, setRows. simpl. f_equal.
    induction (rows st) as [|r rs IH]; [done|]. simpl. f_equal; [|done].
    destruct (decide (id r = i)) as [Hi|Hi].
    + rewrite (bool_decide_eq_true_2 _ Hi). simpl.
      by rewrite (bool_decide_eq_true_2 _ Hi).
    + rewrite (bool_decide_eq_false_2 _ Hi).
      by rewrite (bool_decide_eq_false_2 _ Hi).
Qed.

(** X13: adding an Entry and removing it again gives back the Entries
    there were, provided the new identifier is not one of theirs. *)
Theorem addRow_removeRow (st : PageState) :
  rows st ≠ [] →
  (∀ r, r ∈ rows st → id r ≠ randomId (draws st)) →
  rows (removeRow (randomId (draws st)) (addRow st)) = rows st.
Proof.
  intros Hne Hfresh. simpl. rewrite length_app. simpl.
  destruct (length (rows st) + 1 =? 1)%nat eqn:El.
  - apply Nat.eqb_eq in El. destruct (rows st); simpl in El; [done|lia].
  - rewrite filter_app, filter_all by done.
    rewrite filter_cons_False by (simpl; tauto).
    by rewrite app_nil_r.
Qed.

(** ** More on the response parser and on what the page shows *)

(** X14: [parseApi] throws exactly when [details] is an array with an
    element on which [String] throws; when it returns, it has filled
    exactly one of [ok] and [ng], and [ng] exactly when [details] is a
    non-empty array, whose elements it has turned into strings; and a value
    that is no object (null, a number, a string, a boolean, an array)
    parses like the empty object. *)
Theorem parseApi_shape (v : JValue) :
  ((∃ msg, parseApi v = Thrown msg)
   ↔ ∃ items, prop (asObject v) (lit "details") = Some (JArr items)
              ∧ traverse toStr items = None)
  ∧ (∀ msg, parseApi v = Thrown msg → msg = typeErrorMessage)
  ∧ (∀ p, parseApi v = Returned p →
          (ok p = None ↔ is_Some (ng p)) ∧ (ng p = None ↔ is_Some (ok p)))
  ∧ (∀ x xs ds,
       prop (asObject v) (lit "details") = Some (JArr (x :: xs)) →
       traverse toStr (x :: xs) = Some ds →
       ∃ b, parseApi v = Returned {| ok := None; ng := Some b |}
            ∧ ngDetails b = Some ds)
  ∧ (∀ p, parseApi v = Returned p → is_Some (ng p) →
          ∃ x xs, prop (asObject v) (lit "details") = Some (JArr (x :: xs)))
  ∧ ((∀ fs, v ≠ JObj fs) →
     parseApi v
     = Returned
         {| ok := Some {| okMessage := lit "response"; okStatus := None;
                          okBody := None |};
            ng := None |}).
Proof.
  split_and!.
  - unfold parseApi, getStringArray.
    destruct (prop (asObject v) (lit "details")) as [[| | | |items|]|];
      try (split; [by intros [? ?] | by intros (? & ? & ?)]).
    destruct (traverse toStr items) as [[|d ds]|] eqn:Et.
    + split; [by intros [? ?] | by intros (? & [= <-] & ?); congruence].
    + split; [by intros [? ?] | by intros (? & [= <-] & ?); congruence].
    + split; [intros _; by exists items | intros _; by eexists].
  - intros msg. unfold parseApi, getStringArray.
    destruct (prop (asObject v) (lit "details")) as [[| | | |items|]|];
      try done.
    destruct (traverse toStr items) as [[|d ds]|]; try done.
    by intros [= <-].
  - intros p. unfold parseApi.
    destruct (getStringArray _) as [[[|d ds]|]|msg]; try done;
      intros [= <-]; simpl; split; split; try done; by intros [? ?].
  - intros x xs ds Hx Hds. unfold parseApi, getStringArray.
    rewrite Hx, Hds.
    destruct (traverse_cons_Some _ _ _ _ Hds) as (y & ys & -> & _ & _).
    by eexists.
  - intros p. unfold parseApi, getStringArray.
    destruct (prop (asObject v) (lit "details")) as [[| | | |[|x xs]|]|];
      try (intros [= <-]; simpl; by intros [? ?]).
    intros _ _. by exists x, xs.
  - intros Hv. destruct v as [| | | | |fs]; try reflexivity.
    by destruct (Hv fs).
Qed.

(** X15: on a success status the page shows success for whatever body
    [parseApi] accepts: a body with a non-empty [details] array has its
    message and details replaced by the data [{ message: "forwarded" }],
    and a body that does not decode is shown with the message "response".
    When [parseApi] throws, the page shows the network error with the
    message of what was thrown, although the status was a success. *)
Theorem surface_success (ed : Edition) (status : Z) (text : jsstring) :
  resOk status = true →
  (∀ msg,
     parseApi (default (JObj []) (JSON_parse text)) = Thrown msg →
     surface ed (Responded status text)
     = ResultNg (msgNetwork ed) (Some [msg]) None)
  ∧ (∀ p,
       parseApi (default (JObj []) (JSON_parse text)) = Returned p →
       ∃ data, surface ed (Responded status text)
               = ResultOk (msgSent ed) (Some data))
  ∧ (∀ x xs ds,
       prop (asObject (default (JObj []) (JSON_parse text))) (lit "details")
       = Some (JArr (x :: xs)) →
       traverse toStr (x :: xs) = Some ds →
       surface ed (Responded status text)
       = ResultOk (msgSent ed)
           (Some {| okMessage := lit "forwarded"; okStatus := None;
                    okBody := None |}))
  ∧ (JSON_parse text = None →
     surface ed (Responded status text)
     = ResultOk (msgSent ed)
         (Some {| okMessage := lit "response"; okStatus := None;
                  okBody := None |})).
Proof.
  intros Hs. unfold surface. rewrite Hs. simpl negb. cbv iota.
  split_and!.
  - by intros msg ->.
  - intros p ->. by eexists.
  - intros x xs ds Hx Hds. unfold parseApi, getStringArray.
    rewrite Hx, Hds.
    by destruct (traverse_cons_Some _ _ _ _ Hds) as (y & ys & -> & _ & _).
  - intros ->. reflexivity.
Qed.

(** X16: on a failure status a body with a non-empty [details] array
    whose elements [String] turns into strings is shown in full: its
    message ("response" when it has none), these strings, and the parsed
    data; when [String] throws on an element, the page shows the network
    error with the message of the TypeError instead. *)
Theorem surface_failure_details (ed : Edition) (status : Z)
    (text : jsstring) (x : JValue) (xs : list JValue) :
  resOk status = false →
  prop (asObject (default (JObj []) (JSON_parse text))) (lit "details")
  = Some (JArr (x :: xs)) →
  (∀ ds,
     traverse toStr (x :: xs) = Some ds →
     surface ed (Responded status text)
     = ResultNg
         (default (lit "response")
            (getString
               (prop (asObject (default (JObj []) (JSON_parse text)))
                     (lit "message"))))
         (Some ds)
         (Some {| ngMessage :=
                    default (lit "response")
                      (getString
                         (prop (asObject
                                  (default (JObj []) (JSON_parse text)))
                               (lit "message")));
                  ngDetails := Some ds;
                  ngStatus :=
                    getNumber
                      (prop (asObject (default (JObj []) (JSON_parse text)))
                            (lit "status"));
                  ngBody :=
                    prop (asObject (default (JObj []) (JSON_parse text)))
                         (lit "body") |}))
  ∧ (traverse toStr (x :: xs) = None →
     surface ed (Responded status text)
     = ResultNg (msgNetwork ed) (Some [typeErrorMessage]) None).
Proof.
  intros Hs Hx. split.
  - intros ds Hds. unfold surface, parseApi, getStringArray.
    rewrite Hs, Hx, Hds.
    by destruct (traverse_cons_Some _ _ _ _ Hds) as (y & ys & -> & _ & _).
  - intros Hds. unfold surface, parseApi, getStringArray.
    by rewrite Hx, Hds.
Qed.

Lemma validate_no_fatal (ed : Edition) (rs : list Row) :
  uniqueUrlsOf rs ≠ [] →
  (∀ u, u ∈ uniqueUrlsOf rs → isValidUrl u = true) →
  List.filter (isFatal ed) (validate ed rs) = [].
Proof.
  intros Hne Hall.
  destruct (List.filter (isFatal ed) (validate ed rs)) as [|e es] eqn:Ef;
    [done|].
  assert (He : In e (List.filter (isFatal ed) (validate ed rs)))
    by (rewrite Ef; left; done).
  apply filter_In in He as [He Hfatal]. apply list_elem_of_In in He.
  apply validate_elem in He as [[Hu _] | [(k & u & Hk & Hu & _) | [_ ->]]].
  - done.
  - rewrite (Hall u) in Hu; [done|]. apply list_elem_of_lookup. by exists k.
  - by rewrite isFatal_msgDuplicates in Hfatal.
Qed.

(** X7: when there is a unique URL and every unique URL is well formed,
    [onSubmit] sends exactly one request, with the name of the app, the
    unique URLs and the time, shows what comes back, and stops submitting;
    duplicate Entries do not hold it back.  A [fetch] that throws is shown
    as the network error with the text of the error as its one detail. *)
Theorem onSubmit_valid (ed : Edition) (now : jsstring)
    (fetch : Submission → FetchOutcome) (st : PageState) :
  uniqueUrlsOf (rows st) ≠ [] →
  (∀ u, u ∈ uniqueUrlsOf (rows st) → isValidUrl u = true) →
  onSubmit ed now fetch st
  = ({| rows := rows st; submitting := false;
        result := surface ed
                    (fetch {| subApp := lit "Next Asia Link";
                              subUrls := uniqueUrlsOf (rows st);
                              subCreatedAt := now |});
        draws := draws st |},
     [ {| subApp := lit "Next Asia Link";
          subUrls := uniqueUrlsOf (rows st); subCreatedAt := now |} ])
  ∧ (∀ msg,
       fetch {| subApp := lit "Next Asia Link";
                subUrls := uniqueUrlsOf (rows st); subCreatedAt := now |}
       = Threw msg →
       result (fst (onSubmit ed now fetch st))
       = ResultNg (msgNetwork ed) (Some [msg]) None).
Proof.
  intros Hne Hall.
  assert (E : onSubmit ed now fetch st
              = ({| rows := rows st; submitting := false;
                    result := surface ed
                                (fetch {| subApp := lit "Next Asia Link";
                                          subUrls := uniqueUrlsOf (rows st);
                                          subCreatedAt := now |});
                    draws := draws st |},
                 [ {| subApp := lit "Next Asia Link";
                      subUrls := uniqueUrlsOf (rows st);
                      subCreatedAt := now |} ])).
  { unfold onSubmit. by rewrite (validate_no_fatal ed _ Hne Hall). }
  split; [exact E|]. intros msg Hf. rewrite E. simpl. by rewrite Hf.
Qed.

(** ** More on the relay *)

Lemma POST_bad_json_aux (w now : jsstring)
    (fetch : jsstring → RelayPayload → FetchOutcome) (req : Request) :
  truthy w = true →
  JSON_parse (reqBody req) = None →
  POST (Some w) now fetch req
  = (Returned
       {| code := 400; envelope := justMessage (lit "JSONが壊れてる") |},
     []).
Proof.
  intros Hw Hb. unfold POST. simpl default at 1. by rewrite Hw, Hb.
Qed.

(** X17: with the webhook configured, a request whose body does not decode
    is answered 400 with the message that says so, and nothing is called. *)
Theorem POST_malformed_json (w now : jsstring)
    (fetch : jsstring → RelayPayload → FetchOutcome) (req : Request) :
  truthy w = true →
  JSON_parse (reqBody req) = None →
  POST (Some w) now fetch req
  = (Returned
       {| code := 400; envelope := justMessage (lit "JSONが壊れてる") |},
     []).
Proof. apply POST_bad_json_aux. Qed.

(** X18: when the call of the webhook throws, the relay answers 502 with
    its message and the text of the error as the one detail, without status
    or body; the call was made once. *)
Theorem POST_transport_exception (w now : jsstring)
    (fetch : jsstring → RelayPayload → FetchOutcome) (req : Request)
    (body x : JValue) (xs : list JValue) (us : list jsstring)
    (msg : jsstring) :
  truthy w = true →
  JSON_parse (reqBody req) = Some body →
  prop (asObject body) (lit "urls") = Some (JArr (x :: xs)) →
  traverse toStr (x :: xs) = Some us →
  (∀ payload, fetch w payload = Threw msg) →
  fst (POST (Some w) now fetch req)
  = Returned
      {| code := 502;
         envelope := {| envMessage := lit "Webhook転送で例外";
                        envStatus := None; envDetails := Some [msg];
                        envBody := None |} |}
  ∧ length (snd (POST (Some w) now fetch req)) = 1%nat.
Proof.
  intros Hw Hb Hx Hus Hf.
  rewrite (POST_forwarding _ _ _ _ _ _ _ _ Hw Hb Hx Hus), Hf. done.
Qed.

Lemma POST_cases (webhook : option jsstring) (now : jsstring)
    (fetch : jsstring → RelayPayload → FetchOutcome) (req : Request) :
  (∃ m, m ≠ [] ∧ POST webhook now fetch req
                 = (Returned {| code := 500; envelope := justMessage m |},
                    []))
  ∨ (∃ m, m ≠ [] ∧ POST webhook now fetch req
                   = (Returned {| code := 400; envelope := justMessage m |},
                      []))
  ∨ (∃ w body items,
       webhook = Some w ∧ JSON_parse (reqBody req) = Some body
       ∧ prop (asObject body) (lit "urls") = Some (JArr items)
       ∧ traverse toStr items = None
       ∧ POST webhook now fetch req = (Thrown typeErrorMessage, []))
  ∨ (∃ w payload,
       webhook = Some w ∧ w ≠ [] ∧ urls payload ≠ []
       ∧ POST webhook now fetch req
         = (Returned
              match fetch w payload with
              | Threw msg =>
                {| code := 502;
                   envelope := {| envMessage := lit "Webhook転送で例外";
                                  envStatus := None;
                                  envDetails := Some [msg];
                                  envBody := None |} |}
              | Responded status text =>
                if negb (resOk status) then
                  {| code := 502;
                     envelope := {| envMessage := lit "n8n がエラー返した";
                                    envStatus := Some status;
                                    envDetails := None;
                                    envBody := Some (safeJsonParse text) |} |}
                else
                  {| code := 200;
                     envelope := {| envMessage := lit "forwarded";
                                    envStatus := Some status;
                                    envDetails := None;
                                    envBody := Some (safeJsonParse text) |} |}
              end, [(w, payload)])).
Proof.
  destruct webhook as [[|c w]|].
  - left. eexists. split; [|reflexivity]. done.
  - assert (Hw : truthy (c :: w) = true) by done.
    destruct (JSON_parse (reqBody req)) as [body|] eqn:Hb.
    + destruct (urls_of_body body) as [[Hu _] | (x & xs & Hx)].
      * right. left. eexists.
        split; [|by apply (POST_without_urls_aux _ _ _ _ body)]. done.
      * destruct (traverse toStr (x :: xs)) as [us|] eqn:Hus.
        -- right. right. right. eexists (c :: w), _.
           split_and!; [done|done| |].
           2: by apply (POST_forwarding _ _ _ _ body x xs us).
           simpl.
           by destruct (traverse_cons_Some _ _ _ _ Hus)
             as (y & ys & -> & _ & _).
        -- right. right. left. exists (c :: w), body, (x :: xs).
           split_and!; [done|done|done|done|].
           by apply (POST_throwing _ _ _ _ body (x :: xs)).
    + right. left. eexists. split; [|by apply POST_bad_json_aux]. done.
  - left. eexists. split; [|reflexivity]. done.
Qed.

(** X19: whatever the configuration, the request and the webhook do, the
    handler either throws, which it does exactly when [urls] is an array
    with an element on which [String] throws, and then it has called
    nothing; or it answers 200, 400, 500 or 502 with a message that is not
    empty.  It calls at most once, only the configured webhook, never with
    an empty list of URLs; it has called nothing when it answers 400 or
    500; and it answers 200 only after the webhook answered with a success
    status, which it reports. *)
Theorem POST_outcomes (webhook : option jsstring) (now : jsstring)
    (fetch : jsstring → RelayPayload → FetchOutcome) (req : Request) :
  ((∃ msg, fst (POST webhook now fetch req) = Thrown msg)
   ↔ ∃ w body items,
       webhook = Some w ∧ w ≠ [] ∧ JSON_parse (reqBody req) = Some body
       ∧ prop (asObject body) (lit "urls") = Some (JArr items)
       ∧ traverse toStr items = None)
  ∧ (∀ msg, fst (POST webhook now fetch req) = Thrown msg →
            snd (POST webhook now fetch req) = [])
  ∧ (∀ r, fst (POST webhook now fetch req) = Returned r →
          (code r = 200%Z ∨ code r = 400%Z ∨ code r = 500%Z
           ∨ code r = 502%Z)
          ∧ envMessage (envelope r) ≠ []
          ∧ (code r = 400%Z ∨ code r = 500%Z →
             snd (POST webhook now fetch req) = [])
          ∧ (code r = 200%Z →
             ∃ target payload status text,
               snd (POST webhook now fetch req) = [(target, payload)]
               ∧ fetch target payload = Responded status text
               ∧ (200 ≤ status ≤ 299)%Z
               ∧ envStatus (envelope r) = Some status))
  ∧ (length (snd (POST webhook now fetch req)) ≤ 1)%nat
  ∧ (∀ target payload,
       (target, payload) ∈ snd (POST webhook now fetch req) →
       webhook = Some target ∧ target ≠ [] ∧ urls payload ≠ []).
Proof.
  destruct (POST_cases webhook now fetch req)
    as [(m & Hm & E) | [(m & Hm & E)
       | [(w & body & items & Hw & Hb & Hx & Hus & E)
       | (w & payload & Hw & Hne & Hu & E)]]].
  - rewrite E. simpl fst. simpl snd. split_and!.
    + split; [by intros [? ?]|].
      intros (w & body & items & -> & Hne & Hb & Hx & Hus).
      destruct w as [|c w]; [done|].
      by rewrite (POST_throwing (c :: w) _ _ _ _ _ eq_refl Hb Hx Hus) in E.
    + done.
    + intros r [= <-]. split_and!; [simpl; auto|done|done|].
      simpl. intros Hc. discriminate Hc.
    + simpl. lia.
    + intros ? ? Hin. by apply elem_of_nil in Hin.
  - rewrite E. simpl fst. simpl snd. split_and!.
    + split; [by intros [? ?]|].
      intros (w & body & items & -> & Hne & Hb & Hx & Hus).
      destruct w as [|c w]; [done|].
      by rewrite (POST_throwing (c :: w) _ _ _ _ _ eq_refl Hb Hx Hus) in E.
    + done.
    + intros r [= <-]. split_and!; [simpl; auto|done|done|].
      simpl. intros Hc. discriminate Hc.
    + simpl. lia.
    + intros ? ? Hin. by apply elem_of_nil in Hin.
  - rewrite E. simpl fst. simpl snd. split_and!.
    + split; [intros _|by eexists].
      exists w, body, items. split_and!; try done.
      intros ->. subst webhook. by vm_compute in E.
    + done.
    + done.
    + simpl. lia.
    + intros ? ? Hin. by apply elem_of_nil in Hin.
  - rewrite E. simpl fst. simpl snd. subst webhook. split_and!.
    + split; [by intros [? ?]|].
      intros (w' & body & items & [= <-] & _ & Hb & Hx & Hus).
      destruct w as [|c w]; [done|].
      by rewrite (POST_throwing (c :: w) _ _ _ _ _ eq_refl Hb Hx Hus) in E.
    + done.
    + intros r [= <-].
      destruct (fetch w payload) as [msg|status text] eqn:Ef.
      * split_and!; [simpl; auto|done| |].
        -- simpl. intros [Hc|Hc]; discriminate Hc.
        -- simpl. intros Hc. discriminate Hc.
      * destruct (resOk status) eqn:Es; simpl negb; cbv iota.
        -- split_and!; [simpl; auto|done| |].
           ++ simpl. intros [Hc|Hc]; discriminate Hc.
           ++ intros _. exists w, payload, status, text.
              split; [done|]. split; [exact Ef|]. split; [|done].
              unfold resOk in Es. apply andb_true_iff in Es as [E1 E2].
              apply Z.leb_le in E1, E2. lia.
        -- split_and!; [simpl; auto|done| |].
           ++ simpl. intros [Hc|Hc]; discriminate Hc.
           ++ simpl. intros Hc. discriminate Hc.
    + simpl. lia.
    + by intros target p [= <- <-]%list_elem_of_singleton.
Qed.

Lemma toStr_strings (l : list jsstring) :
  traverse toStr (map JStr l) = Some l.
Proof. induction l as [|s l IH]; [done|]. simpl in *. by rewrite IH. Qed.

Lemma submissionJson_urls (sub : Submission) :
  prop (asObject (submissionJson sub)) (lit "urls")
  = Some (JArr (map JStr (subUrls sub))).
Proof. reflexivity. Qed.

(** X20: what the page submits is what the relay forwards.  When the body
    of the request decodes to what the page serialised, with at least one
    URL, the relay calls the webhook once with the page's app name, the
    page's URLs unchanged and in order, and the page's time, not its own;
    with no URL it answers 400.  The request of a page always has a URL, so
    the relay never answers it 400. *)
Theorem relay_forwards_submission (w now : jsstring)
    (fetch : jsstring → RelayPayload → FetchOutcome) (req : Request)
    (sub : Submission) :
  truthy w = true →
  JSON_parse (reqBody req) = Some (submissionJson sub) →
  (subUrls sub ≠ [] →
   snd (POST (Some w) now fetch req)
   = [(w, {| app := subApp sub; urls := subUrls sub;
             meta_created_at := subCreatedAt sub;
             meta_user_agent := default [] (reqUserAgent req);
             meta_ip_hint := default [] (reqForwardedFor req) |})]
   ∧ ∃ r, fst (POST (Some w) now fetch req) = Returned r
          ∧ code r ≠ 400%Z)
  ∧ (subUrls sub = [] →
     POST (Some w) now fetch req
     = (Returned
          {| code := 400; envelope := justMessage (lit "urls が空") |},
        []))
  ∧ (∀ ed now' fetch' st,
       sub ∈ snd (onSubmit ed now' fetch' st) →
       subUrls sub = uniqueUrlsOf (rows st) ∧ subUrls sub ≠ []).
Proof.
  intros Hw Hb. split_and!.
  - intros Hne. destruct (subUrls sub) as [|u us] eqn:Eu; [done|].
    assert (Hx : prop (asObject (submissionJson sub)) (lit "urls")
                 = Some (JArr (JStr u :: map JStr us))).
    { rewrite submissionJson_urls, Eu. done. }
    assert (Hus : traverse toStr (JStr u :: map JStr us) = Some (u :: us))
      by apply (toStr_strings (u :: us)).
    rewrite (POST_forwarding _ _ _ _ _ _ _ _ Hw Hb Hx Hus).
    simpl snd. simpl fst. split; [done|].
    eexists. split; [done|].
    destruct (fetch w _) as [msg|status text]; [done|].
    by destruct (resOk status).
  - intros Hu. apply (POST_without_urls_aux _ _ _ _ _ Hw Hb).
    intros (x & xs & Hx). rewrite submissionJson_urls, Hu in Hx. done.
  - intros ed now' fetch' st Hin. unfold onSubmit in Hin.
    destruct (List.filter (isFatal ed) (validate ed (rows st))) eqn:Ef;
      simpl in Hin; [|by apply elem_of_nil in Hin].
    apply list_elem_of_singleton in Hin as ->. simpl. split; [done|].
    intros Hu.
    apply (filter_fatal_nonempty ed (validate ed (rows st)) (msgNoUrl ed));
      [|apply isFatal_msgNoUrl|done].
    apply validate_elem. by left.
Qed.

(** ** From a paste to the URLs, and which messages block *)

Lemma pasteParts_trimmed (t p : jsstring) :
  p ∈ pasteParts t → trim p ≠ [].
Proof.
  unfold pasteParts. rewrite list_elem_of_In, filter_In, in_map_iff.
  intros [(q & <- & _) Hne]. rewrite trim_idem. by destruct (trim q).
Qed.

Lemma urlsOf_app (a b : list Row) : urlsOf (a ++ b) = urlsOf a ++ urlsOf b.
Proof. unfold urlsOf. by rewrite List.map_app, List.filter_app. Qed.

Lemma urlsOf_pushed (g : nat → jsstring) (l : list jsstring) :
  Forall (λ p, trim p ≠ []) l →
  urlsOf (imap (λ k u, {| id := g k; url := u |}) l) = map normalizeUrl l.
Proof.
  intros Hl. revert g. induction Hl as [|p l Hp Hl IH]; intros g; [done|].
  rewrite imap_cons. unfold urlsOf in *. simpl.
  destruct (normalizeUrl_cases p) as [[Ht _] | [(_ & _ & E) | (_ & _ & E)]];
    [done| |].
  - rewrite E. destruct (trim p) eqn:Et; [done|]. simpl. f_equal.
    apply (IH (g ∘ S)).
  - rewrite E. simpl. f_equal. apply (IH (g ∘ S)).
Qed.

(** X21: after a paste of several tokens the URLs of the page are the URLs
    of the Entries before the last one, followed by the normalised tokens in
    their order: what the last Entry held is replaced, and no token is
    lost. *)
Theorem paste_then_urls (idx : nat) (t : jsstring) (st : PageState)
    (init : list Row) (r : Row) :
  (2 ≤ length (pasteParts t))%nat →
  rows st = init ++ [r] →
  urlsOf (rows (snd (onPaste idx t st)))
  = urlsOf init ++ map normalizeUrl (pasteParts t).
Proof.
  intros Hl Hr.
  assert (Hall : Forall (λ p, trim p ≠ []) (pasteParts t)).
  { apply Forall_forall. intros p. apply pasteParts_trimmed. }
  destruct (pasteParts t) as [|first [|second rest]] eqn:Hp;
    simpl in Hl; [lia|lia|].
  unfold onPaste. rewrite (pasteParts_many_separator _ _ _ _ Hp). simpl snd.
  rewrite (pasteMany_rows _ _ _ _ _ _ _ Hp Hr). simpl rows.
  rewrite urlsOf_app. f_equal.
  exact (urlsOf_pushed
           (λ k, match k with
                 | O => id r
                 | S k' => randomId (draws st + k')
                 end)
           (first :: second :: rest) Hall).
Qed.

(** X22: among the messages of [validate], the test that [onSubmit] makes
    on their text holds for every one but the duplicate notice, whatever
    the URLs that the messages quote. *)
Theorem isFatal_on_validate (ed : Edition) (rs : list Row) (e : jsstring) :
  e ∈ validate ed rs → (isFatal ed e = true ↔ e ≠ msgDuplicates ed).
Proof.
  intros He. apply validate_elem in He
    as [[_ ->] | [(k & u & _ & _ & ->) | [_ ->]]].
  - split; [intros _; apply msgNoUrl_not_notice | intros _].
    apply isFatal_msgNoUrl.
  - split; [intros _; apply msgInvalid_not_notice | intros _].
    apply isFatal_msgInvalid.
  - rewrite isFatal_msgDuplicates. split; [done | by intros []].
Qed.

End Properties.

(** * The properties on the small host *)

#[local] Existing Instances sampleNumbers samplePlatform sampleEntropy.

Lemma sampleEntropy_unique (m n : nat) :
  randomId m = randomId n → m = n.
Proof.
  simpl. intros Heq. apply (f_equal length) in Heq.
  rewrite !length_cons, !length_replicate in Heq. lia.
Qed.

(** Section 8 of the specification, on the code. *)

Example paste_three_urls :
  map url (rows (snd (onPaste 0 (lit "a.com, b.com" ++ [10] ++ lit "c.com")
                              initialState)))
  = [lit "a.com"; lit "b.com"; lit "c.com"].
Proof. reflexivity. Qed.

Example paste_one_url :
  onPaste 0 (lit "a.com") initialState = (false, initialState).
Proof. reflexivity. Qed.

Example submit_not_a_url :
  onSubmit Japanese sampleNow (λ _, Threw [])
    (setUrl (randomId 0) (lit "not a url") initialState)
  = ({| rows := [ {| id := randomId 0; url := lit "not a url" |} ];
        submitting := false;
        result :=
          ResultNg (lit "入力が雑。直せ。")
            (Some [lit "(1) URL形式が壊れてる: https://not a url"]) None;
        draws := 1 |}, []).
Proof. reflexivity. Qed.

Example relay_503 :
  fst (POST (Some sampleWebhook) sampleNow (λ _ _, Responded 503 textX1)
         (sampleRequest textUrls))
  = Returned
      {| code := 502;
         envelope := {| envMessage := lit "n8n がエラー返した";
                        envStatus := Some 503%Z; envDetails := None;
                        envBody := Some (JObj [(lit "x", sampleNum 1)]) |} |}.
Proof. reflexivity. Qed.

Example relay_200_text :
  fst (POST (Some sampleWebhook) sampleNow (λ _ _, Responded 200 (lit "ok"))
         (sampleRequest textUrls))
  = Returned
      {| code := 200;
         envelope := {| envMessage := lit "forwarded";
                        envStatus := Some 200%Z; envDetails := None;
                        envBody := Some (JStr (lit "ok")) |} |}.
Proof. reflexivity. Qed.

Example relay_hostile_urls :
  POST (platform := samplePlatform2) (Some sampleWebhook) sampleNow
    (λ _ _, Responded 200 (lit "ok")) (sampleRequest textHostileUrls)
  = (Thrown (lit "Cannot convert object to primitive value"), []).
Proof. reflexivity. Qed.

Example page_hostile_details :
  surface (platform := samplePlatform2) Japanese
    (Responded 200 textHostileDetails)
  = ResultNg (lit "通信が死んだ")
      (Some [lit "Cannot convert object to primitive value"]) None.
Proof. reflexivity. Qed.

Example String_of_nested_values :
  toStr (JArr [JStr (lit "a"); JNull; JArr [JBool true; JObj []]])
  = Some (lit "a,,true,[object Object]")
  ∧ toStr (JArr [JStr (lit "a"); JArr [JObj [(lit "toString", JNull)]]])
    = None.
Proof. split; reflexivity. Qed.

Example relay_coerces_urls :
  map (λ call, urls (snd call))
    (snd (POST (Some sampleWebhook) sampleNow (λ _ _, Threw [])
            (sampleRequest textUrls)))
  = [[lit "a.com"; lit "7"]].
Proof. reflexivity. Qed.

Lemma uniqueUrls_first_occurrence_witness :
  arrayFromSet [lit "b"; lit "a"; lit "b"; lit "c"; lit "a"]
  = [lit "b"; lit "a"; lit "c"]
  ∧ ∃ t, arrayFromSet [lit "b"; lit "a"; lit "b"]
         = arrayFromSet [lit "b"] ++ lit "a" :: t.
Proof.
  split.
  - apply (proj1 uniqueUrls_first_occurrence); discriminate.
  - apply (proj2 (proj2 (proj2
             (proj2 uniqueUrls_first_occurrence
                    [lit "b"; lit "a"; lit "b"])))
             [lit "b"] (lit "a") [lit "b"]).
    + reflexivity.
    + intros Hin. apply list_elem_of_singleton in Hin. discriminate.
Defined.

Lemma onPaste_tokens_witness :
  onPaste 0 (lit "x.com,y.com") twoRows
  = (true,
     {| rows := [ {| id := randomId 0; url := [] |};
                  {| id := randomId 1; url := lit "x.com" |};
                  {| id := randomId 2; url := lit "y.com" |} ];
        submitting := false; result := ResultNull; draws := 3 |})
  ∧ onPaste 0 (lit "a.com") initialState = (false, initialState).
Proof.
  split.
  - apply (proj1 (onPaste_tokens 0 (lit "x.com,y.com") twoRows)
             (lit "x.com") (lit "y.com") []
             [ {| id := randomId 0; url := [] |} ]
             {| id := randomId 1; url := [] |}); reflexivity.
  - apply (proj2 (onPaste_tokens 0 (lit "a.com") initialState)).
    reflexivity.
Defined.

(** Pasting two URLs into the first of two fields leaves that field empty
    and fills the last one; and pasting one URL followed by a line break is
    intercepted although it is one token, so that nothing is pasted at
    all. *)
Example paste_into_first_of_two :
  pasteParts (lit "x.com,y.com") = [lit "x.com"; lit "y.com"]
  ∧ map url (rows (snd (onPaste 0 (lit "x.com,y.com") twoRows)))
    = [[]; lit "x.com"; lit "y.com"]
  ∧ url <$> rows (snd (onPaste 0 (lit "x.com,y.com") twoRows)) !! 0%nat
    ≠ Some (lit "x.com")
  ∧ pasteParts (lit "a.com" ++ [10]) = [lit "a.com"]
  ∧ onPaste 0 (lit "a.com" ++ [10]) initialState = (true, initialState)
  ∧ fst (onPaste 0 (lit "a.com" ++ [10]) initialState) ≠ false.
Proof. split_and!; try reflexivity; discriminate. Qed.

Lemma onPaste_misses_field_witness :
  (fst (onPaste 0 (lit "x.com,y.com") twoRows) = true
   ∧ rows (snd (onPaste 0 (lit "x.com,y.com") twoRows)) !! 0%nat
     = Some {| id := randomId 0; url := [] |}
   ∧ rows (snd (onPaste 0 (lit "x.com,y.com") twoRows)) !! 1%nat
     = Some {| id := randomId 1; url := lit "x.com" |})
  ∧ onPaste 0 (lit "a.com" ++ [10]) initialState = (true, initialState).
Proof.
  split.
  - apply (proj1 (onPaste_misses_field 0 (lit "x.com,y.com") twoRows)
             (lit "x.com") (lit "y.com") []
             [ {| id := randomId 0; url := [] |} ]
             {| id := randomId 1; url := [] |});
      [reflexivity | reflexivity | simpl; lia].
  - apply (proj2 (onPaste_misses_field 0 (lit "a.com" ++ [10])
                    initialState));
      [reflexivity | simpl; lia].
Defined.

Lemma rows_emptied_by_collision_witness :
  length (rows (run (entropy := collidingEntropy) [AddRow])) = 2%nat
  ∧ rows (run (entropy := collidingEntropy)
            [AddRow; RemoveRow (lit "i")]) = []
  ∧ rows (run (entropy := collidingEntropy)
            [AddRow; RemoveRow (lit "i")]) = [].
Proof.
  apply (rows_emptied_by_collision (entropy := collidingEntropy)).
  reflexivity.
Defined.

Lemma rows_never_empty_witness :
  (1 ≤ length (rows (run [AddRow; RemoveRow (randomId 0);
                          RemoveRow (randomId 1); ClearAll])))%nat
  ∧ removeRow (randomId 0) initialState = initialState
  ∧ (1 ≤ length (rows (step twoRows (Paste 0 (lit "x.com,y.com")))))%nat
  ∧ (1 ≤ length (rows (removeRow (randomId 1) twoRows)))%nat.
Proof.
  destruct rows_never_empty as (_ & Hone & Hstep & Hremove & Hrun).
  split_and!.
  - apply (Hrun sampleEntropy_unique
             [AddRow; RemoveRow (randomId 0); RemoveRow (randomId 1);
              ClearAll]).
  - apply Hone. reflexivity.
  - apply Hstep; [discriminate | simpl; lia].
  - apply Hremove; [|simpl; lia].
    apply NoDup_cons. split; [|apply NoDup_singleton].
    intros Hin. apply list_elem_of_singleton in Hin. discriminate.
Defined.

Lemma onSubmit_rejects_fatal_witness :
  snd (onSubmit Japanese sampleNow (λ _, Threw []) initialState) = []
  ∧ msgNoUrl Japanese ∈ validate Japanese (rows initialState)
  ∧ snd (onSubmit English sampleNow (λ _, Threw [])
           (setUrl (randomId 0) (lit "not a url") initialState)) = [].
Proof.
  split_and!.
  - rewrite (proj1 (onSubmit_rejects_fatal Japanese sampleNow (λ _, Threw [])
                      initialState (or_introl eq_refl))).
    reflexivity.
  - apply (onSubmit_rejects_fatal Japanese sampleNow (λ _, Threw [])
             initialState (or_introl eq_refl)).
    reflexivity.
  - assert (Hbad :
      uniqueUrlsOf
        (rows (setUrl (randomId 0) (lit "not a url") initialState)) = []
      ∨ ∃ u, u ∈ uniqueUrlsOf
                   (rows (setUrl (randomId 0) (lit "not a url") initialState))
             ∧ isValidUrl u = false).
    { right. exists (lit "https://not a url").
      split; [apply list_elem_of_here | reflexivity]. }
    rewrite (proj1 (onSubmit_rejects_fatal English sampleNow (λ _, Threw [])
                      _ Hbad)).
    reflexivity.
Defined.

Lemma POST_without_webhook_witness :
  POST None sampleNow (λ _ _, Responded 200 (lit "ok"))
    (sampleRequest (lit "{ not json"))
  = (Returned
       {| code := 500;
          envelope :=
            justMessage
              (lit "N8N_WEBHOOK_URL が未設定（Vercelの環境変数に入れろ）") |},
     []).
Proof. apply POST_without_webhook. left. reflexivity. Defined.

Lemma POST_without_urls_witness :
  POST (Some sampleWebhook) sampleNow (λ _ _, Responded 200 (lit "ok"))
    (sampleRequest textNoUrls)
  = (Returned {| code := 400; envelope := justMessage (lit "urls が空") |},
     []).
Proof.
  apply (POST_without_urls _ _ _ _ (JObj [(lit "urls", JArr [])]));
    [reflexivity | reflexivity | right; right; reflexivity].
Defined.

Lemma POST_element_throws_witness :
  POST (platform := samplePlatform2) (Some sampleWebhook) sampleNow
    (λ _ _, Responded 200 (lit "ok")) (sampleRequest textHostileUrls)
  = (Thrown (typeErrorMessage (Platform := samplePlatform2)), []).
Proof.
  apply (POST_element_throws (platform := samplePlatform2)
           sampleWebhook sampleNow (λ _ _, Responded 200 (lit "ok"))
           (sampleRequest textHostileUrls) bodyHostileUrls
           [JObj [(lit "toString", sampleNum 1)]]
           [(lit "toString", sampleNum 1)] (sampleNum 1)).
  - reflexivity.
  - reflexivity.
  - reflexivity.
  - apply list_elem_of_here.
  - reflexivity.
Defined.

Lemma POST_shape_validation_witness :
  (∃ r, fst (POST (Some sampleWebhook) sampleNow (λ _ _, Threw [])
               (sampleRequest textNoUrls)) = Returned r
        ∧ code r = 400%Z)
  ∧ snd (POST (Some sampleWebhook) sampleNow (λ _ _, Threw [])
           (sampleRequest textUrls))
    = [(sampleWebhook,
        {| app := lit "Next Asia Link"; urls := [lit "a.com"; lit "7"];
           meta_created_at := sampleNow; meta_user_agent := lit "curl/8";
           meta_ip_hint := [] |})]
  ∧ POST (platform := samplePlatform2) (Some sampleWebhook) sampleNow
      (λ _ _, Threw []) (sampleRequest textHostileUrls)
    = (Thrown (typeErrorMessage (Platform := samplePlatform2)), []).
Proof.
  split_and!.
  - apply (POST_shape_validation sampleWebhook sampleNow (λ _ _, Threw [])
             (sampleRequest textNoUrls) bodyNoUrls);
      [reflexivity | reflexivity |].
    intros (x & xs & Hx). discriminate Hx.
  - assert (Hb : JSON_parse (reqBody (sampleRequest textUrls))
                 = Some bodyUrls) by reflexivity.
    assert (Hx : prop (asObject bodyUrls) (lit "urls")
                 = Some (JArr [JStr (lit "a.com"); sampleNum 7]))
      by reflexivity.
    assert (Hus : traverse toStr [JStr (lit "a.com"); sampleNum 7]
                  = Some [lit "a.com"; lit "7"]) by reflexivity.
    rewrite (proj1 (proj2 (POST_shape_validation sampleWebhook sampleNow
                             (λ _ _, Threw []) (sampleRequest textUrls)
                             bodyUrls eq_refl Hb))
               (JStr (lit "a.com")) [sampleNum 7] _ Hx Hus).
    reflexivity.
  - assert (Hb : JSON_parse (Platform := samplePlatform2)
                   (reqBody (sampleRequest textHostileUrls))
                 = Some bodyHostileUrls) by reflexivity.
    apply (proj2 (proj2 (POST_shape_validation (platform := samplePlatform2)
                           sampleWebhook sampleNow (λ _ _, Threw [])
                           (sampleRequest textHostileUrls) bodyHostileUrls
                           eq_refl Hb))
             (JObj [(lit "toString", sampleNum 1)]) []);
      reflexivity.
Defined.

Lemma POST_downstream_response_witness :
  fst (POST (Some sampleWebhook) sampleNow (λ _ _, Responded 503 textX1)
         (sampleRequest textUrls))
  = Returned
      {| code := 502;
         envelope := {| envMessage := lit "n8n がエラー返した";
                        envStatus := Some 503%Z; envDetails := None;
                        envBody := Some (JObj [(lit "x", sampleNum 1)]) |} |}
  ∧ fst (POST (Some sampleWebhook) sampleNow
           (λ _ _, Responded 200 (lit "ok")) (sampleRequest textUrls))
    = Returned
        {| code := 200;
           envelope := {| envMessage := lit "forwarded";
                          envStatus := Some 200%Z; envDetails := None;
                          envBody := Some (JStr (lit "ok")) |} |}.
Proof.
  assert (Hb : JSON_parse (reqBody (sampleRequest textUrls)) = Some bodyUrls)
    by reflexivity.
  assert (Hx : prop (asObject bodyUrls) (lit "urls")
               = Some (JArr [JStr (lit "a.com"); sampleNum 7]))
    by reflexivity.
  assert (Hus : traverse toStr [JStr (lit "a.com"); sampleNum 7]
                = Some [lit "a.com"; lit "7"]) by reflexivity.
  split.
  - rewrite (proj1 (proj2 (POST_downstream_response sampleWebhook sampleNow
                      (λ _ _, Responded 503 textX1) (sampleRequest textUrls)
                      bodyUrls (JStr (lit "a.com")) [sampleNum 7] _
                      503%Z textX1 eq_refl Hb Hx Hus (λ _, eq_refl))))
      by lia.
    reflexivity.
  - rewrite (proj2 (proj2 (POST_downstream_response sampleWebhook sampleNow
                      (λ _ _, Responded 200 (lit "ok"))
                      (sampleRequest textUrls)
                      bodyUrls (JStr (lit "a.com")) [sampleNum 7] _
                      200%Z (lit "ok") eq_refl Hb Hx Hus (λ _, eq_refl))))
      by lia.
    reflexivity.
Defined.

(** The relay's own answer to an empty URL list, status 400 with the body
    [{"message":"urls が空"}], reaches the user as the fixed failure text. *)
Lemma surface_failure_without_details_witness :
  surface Japanese (Responded 400 textEmptyUrls)
  = ResultNg (lit "送信失敗") (Some []) None
  ∧ getString (prop (asObject (default (JObj []) (JSON_parse textEmptyUrls)))
                    (lit "message"))
    = Some (lit "urls が空").
Proof.
  split.
  - apply (surface_failure_without_details Japanese 400%Z textEmptyUrls).
    + reflexivity.
    + intros d ds. discriminate.
  - reflexivity.
Defined.

Example submit_relay_rejects :
  result (fst (onSubmit Japanese sampleNow
                 (λ _, Responded 400 textEmptyUrls)
                 (setUrl (randomId 0) (lit "example.com") initialState)))
  = ResultNg (lit "送信失敗") (Some []) None.
Proof. reflexivity. Qed.

(** ** The further properties on the small host *)

Lemma normalizeUrl_shape_witness :
  hasScheme (normalizeUrl (lit " example.com")) = true
  ∧ normalizeUrl (lit "   ") = [].
Proof.
  split.
  - apply (normalizeUrl_shape (lit " example.com")). discriminate.
  - apply (proj2 (proj1 (normalizeUrl_shape (lit "   "))) eq_refl).
Defined.

Lemma uniqueUrls_normalized_witness :
  hasScheme (lit "https://example.com") = true
  ∧ lit "https://example.com" ∈ uniqueUrlsOf (rows oneUrl).
Proof.
  split.
  - apply (proj1 (uniqueUrls_normalized (rows oneUrl))
             (lit "https://example.com")).
    apply list_elem_of_here.
  - apply (proj2 (uniqueUrls_normalized (rows oneUrl))
             {| id := randomId 0; url := lit "example.com" |}).
    + apply list_elem_of_here.
    + discriminate.
Defined.

Lemma arrayFromSet_length_witness :
  arrayFromSet [lit "a"; lit "b"] = [lit "a"; lit "b"].
Proof.
  apply (proj1 (proj2 (proj2 (arrayFromSet_length [lit "a"; lit "b"])))).
  apply NoDup_cons. split; [|apply NoDup_singleton].
  intros Hin. apply list_elem_of_singleton in Hin. discriminate.
Defined.

Lemma validate_messages_witness :
  lit "(1) URL形式が壊れてる: https://not a url"
  ∈ validate Japanese
      (rows (setUrl (randomId 0) (lit "not a url") initialState)).
Proof.
  apply (proj1 (proj2 (validate_messages Japanese
                         (rows (setUrl (randomId 0) (lit "not a url")
                                       initialState))))
           0%nat (lit "https://not a url")); reflexivity.
Defined.

Lemma validate_clean_witness : validate English (rows oneUrl) = [].
Proof.
  apply (validate_clean English (rows oneUrl)). split_and!.
  - discriminate.
  - intros u Hu.
    change (u ∈ [lit "https://example.com"]) in Hu.
    apply list_elem_of_singleton in Hu. rewrite Hu. reflexivity.
  - apply NoDup_singleton.
Defined.

Lemma blank_entries_rejected_witness :
  validate Japanese (rows (clearAll oneUrl)) = [msgNoUrl Japanese]
  ∧ snd (onSubmit Japanese sampleNow (λ _, Responded 200 (lit "ok"))
           (clearAll oneUrl)) = [].
Proof.
  assert (Hblank : ∀ r, r ∈ rows (clearAll oneUrl) → trim (url r) = []).
  { intros r Hr. change (r ∈ [ {| id := randomId 1; url := [] |} ]) in Hr.
    apply list_elem_of_singleton in Hr. rewrite Hr. reflexivity. }
  split.
  - apply (blank_entries_rejected Japanese sampleNow
             (λ _, Responded 200 (lit "ok")) (clearAll oneUrl) Hblank).
  - rewrite (proj2 (blank_entries_rejected Japanese sampleNow
                      (λ _, Responded 200 (lit "ok")) (clearAll oneUrl)
                      Hblank)).
    reflexivity.
Defined.

Lemma oneUrl_valid :
  uniqueUrlsOf (rows oneUrl) ≠ []
  ∧ ∀ u, u ∈ uniqueUrlsOf (rows oneUrl) → isValidUrl u = true.
Proof.
  split; [discriminate|]. intros u Hu.
  change (u ∈ [lit "https://example.com"]) in Hu.
  apply list_elem_of_singleton in Hu. rewrite Hu. reflexivity.
Qed.

Lemma onSubmit_valid_witness :
  result (fst (onSubmit English sampleNow (λ _, Threw (lit "offline"))
                 oneUrl))
  = ResultNg (lit "Network error.") (Some [lit "offline"]) None.
Proof.
  apply (proj2 (onSubmit_valid English sampleNow
                  (λ _, Threw (lit "offline")) oneUrl
                  (proj1 oneUrl_valid) (proj2 oneUrl_valid))
           (lit "offline")).
  reflexivity.
Defined.

Lemma onSubmit_effects_witness :
  submitting (fst (onSubmit English sampleNow (λ _, Threw (lit "offline"))
                     oneUrl)) = false.
Proof.
  apply (onSubmit_effects English sampleNow (λ _, Threw (lit "offline"))
           oneUrl).
  discriminate.
Defined.

Lemma pasteParts_tokens_witness :
  lit "b.com" ≠ []
  ∧ onPaste 3 (lit "b.com") twoRows = (false, twoRows).
Proof.
  assert (Hin : lit "b.com" ∈ pasteParts (lit "a.com, b.com")).
  { apply list_elem_of_further, list_elem_of_here. }
  split.
  - apply (pasteParts_tokens (lit "a.com, b.com") (lit "b.com") Hin).
  - apply (pasteParts_tokens (lit "a.com, b.com") (lit "b.com") Hin).
Defined.

Lemma onPaste_swallowed_witness :
  onPaste 0 (lit " a.com") oneUrl = (true, oneUrl).
Proof.
  apply onPaste_swallowed; [reflexivity | simpl; lia].
Defined.

Lemma removeRow_effect_witness :
  S (length (rows (removeRow (randomId 1) twoRows))) = length (rows twoRows)
  ∧ rows (removeRow (lit "zz") twoRows) = rows twoRows.
Proof.
  split.
  - apply (proj2 (proj2 (removeRow_effect (randomId 1) twoRows))).
    + apply NoDup_cons. split; [|apply NoDup_singleton].
      intros Hin. apply list_elem_of_singleton in Hin. discriminate.
    + simpl. lia.
    + apply list_elem_of_further, list_elem_of_here.
  - apply (proj1 (removeRow_effect (lit "zz") twoRows)).
    intros r Hr.
    change (r ∈ [ {| id := randomId 0; url := [] |};
                  {| id := randomId 1; url := [] |} ]) in Hr.
    apply elem_of_cons in Hr as [-> | Hr]; [discriminate|].
    apply list_elem_of_singleton in Hr as ->. discriminate.
Defined.

Lemma setUrl_effect_witness :
  rows (setUrl (randomId 1) (lit "b.com") twoRows) !! 1%nat
  = Some {| id := randomId 1; url := lit "b.com" |}
  ∧ rows (setUrl (randomId 1) (lit "b.com") twoRows) !! 0%nat
    = Some {| id := randomId 0; url := [] |}.
Proof.
  split.
  - rewrite (proj1 (proj2 (setUrl_effect (randomId 1) (lit "b.com")
                             twoRows))
               1%nat {| id := randomId 1; url := [] |} eq_refl).
    reflexivity.
  - rewrite (proj1 (proj2 (setUrl_effect (randomId 1) (lit "b.com")
                             twoRows))
               0%nat {| id := randomId 0; url := [] |} eq_refl).
    reflexivity.
Defined.

Lemma addRow_removeRow_witness :
  rows (removeRow (randomId (draws oneUrl)) (addRow oneUrl)) = rows oneUrl.
Proof.
  apply addRow_removeRow; [discriminate|].
  intros r Hr.
  change (r ∈ [ {| id := randomId 0; url := lit "example.com" |} ]) in Hr.
  apply list_elem_of_singleton in Hr as ->. discriminate.
Defined.

Lemma parseApi_shape_witness :
  (∃ b, parseApi bodyFailure = Returned {| ok := None; ng := Some b |}
        ∧ ngDetails b = Some [lit "boom"])
  ∧ parseApi (JArr [JStr (lit "boom")])
    = Returned
        {| ok := Some {| okMessage := lit "response"; okStatus := None;
                         okBody := None |};
           ng := None |}
  ∧ ∃ msg, parseApi bodyHostileDetails = Thrown msg.
Proof.
  split_and!.
  - apply (proj1 (proj2 (proj2 (proj2 (parseApi_shape bodyFailure))))
             (JStr (lit "boom")) [] [lit "boom"]); reflexivity.
  - apply (proj2 (proj2 (proj2 (proj2 (proj2
             (parseApi_shape (JArr [JStr (lit "boom")]))))))).
    discriminate.
  - apply (proj2 (proj1 (parseApi_shape bodyHostileDetails))).
    exists [JObj [(lit "toString", sampleNum 1)]]. split; reflexivity.
Defined.

Lemma surface_success_witness :
  surface (platform := samplePlatform2) English (Responded 200 textFailure)
  = ResultOk (lit "Payload sent.")
      (Some {| okMessage := lit "forwarded"; okStatus := None;
               okBody := None |})
  ∧ surface (platform := samplePlatform2) English (Responded 204 [])
    = ResultOk (lit "Payload sent.")
        (Some {| okMessage := lit "response"; okStatus := None;
                 okBody := None |})
  ∧ surface (platform := samplePlatform2) English
      (Responded 200 textHostileDetails)
    = ResultNg (lit "Network error.")
        (Some [typeErrorMessage (Platform := samplePlatform2)]) None.
Proof.
  split_and!.
  - apply (proj1 (proj2 (proj2 (surface_success (platform := samplePlatform2)
                                  English 200%Z textFailure eq_refl)))
             (JStr (lit "boom")) [] [lit "boom"]); reflexivity.
  - apply (proj2 (proj2 (proj2 (surface_success (platform := samplePlatform2)
                                  English 204%Z [] eq_refl)))).
    reflexivity.
  - apply (proj1 (surface_success (platform := samplePlatform2)
                    English 200%Z textHostileDetails eq_refl)).
    reflexivity.
Defined.

Lemma surface_failure_details_witness :
  surface (platform := samplePlatform2) Japanese (Responded 502 textFailure)
  = ResultNg (lit "Webhook転送で例外") (Some [lit "boom"])
      (Some {| ngMessage := lit "Webhook転送で例外";
               ngDetails := Some [lit "boom"];
               ngStatus := None; ngBody := None |})
  ∧ surface (platform := samplePlatform2) Japanese
      (Responded 502 textHostileDetails)
    = ResultNg (lit "通信が死んだ")
        (Some [typeErrorMessage (Platform := samplePlatform2)]) None.
Proof.
  split.
  - rewrite (proj1 (surface_failure_details (platform := samplePlatform2)
                      Japanese 502%Z textFailure (JStr (lit "boom")) []
                      eq_refl eq_refl) [lit "boom"] eq_refl).
    reflexivity.
  - apply (proj2 (surface_failure_details (platform := samplePlatform2)
                    Japanese 502%Z textHostileDetails
                    (JObj [(lit "toString", sampleNum 1)]) []
                    eq_refl eq_refl)).
    reflexivity.
Defined.

Lemma POST_malformed_json_witness :
  POST (Some sampleWebhook) sampleNow (λ _ _, Responded 200 (lit "ok"))
    (sampleRequest (lit "{ not json"))
  = (Returned
       {| code := 400; envelope := justMessage (lit "JSONが壊れてる") |},
     []).
Proof. apply POST_malformed_json; reflexivity. Defined.

Lemma POST_transport_exception_witness :
  fst (POST (Some sampleWebhook) sampleNow (λ _ _, Threw (lit "refused"))
         (sampleRequest textUrls))
  = Returned
      {| code := 502;
         envelope := {| envMessage := lit "Webhook転送で例外";
                        envStatus := None;
                        envDetails := Some [lit "refused"];
                        envBody := None |} |}.
Proof.
  assert (Hb : JSON_parse (reqBody (sampleRequest textUrls)) = Some bodyUrls)
    by reflexivity.
  assert (Hx : prop (asObject bodyUrls) (lit "urls")
               = Some (JArr [JStr (lit "a.com"); sampleNum 7]))
    by reflexivity.
  assert (Hus : traverse toStr [JStr (lit "a.com"); sampleNum 7]
                = Some [lit "a.com"; lit "7"]) by reflexivity.
  apply (proj1 (POST_transport_exception sampleWebhook sampleNow
                  (λ _ _, Threw (lit "refused")) (sampleRequest textUrls)
                  bodyUrls (JStr (lit "a.com")) [sampleNum 7]
                  [lit "a.com"; lit "7"] (lit "refused")
                  eq_refl Hb Hx Hus (λ _, eq_refl))).
Defined.

Lemma POST_outcomes_witness :
  (∃ target payload status text,
     snd (POST (Some sampleWebhook) sampleNow
            (λ _ _, Responded 201 (lit "ok")) (sampleRequest textUrls))
     = [(target, payload)]
     ∧ (λ _ _, Responded 201 (lit "ok")) target payload
       = Responded status text
     ∧ (200 ≤ status ≤ 299)%Z
     ∧ Some 201%Z = Some status)
  ∧ snd (POST (platform := samplePlatform2) (Some sampleWebhook) sampleNow
           (λ _ _, Responded 201 (lit "ok"))
           (sampleRequest textHostileUrls)) = [].
Proof.
  split.
  - destruct (POST_outcomes (Some sampleWebhook) sampleNow
                (λ _ _, Responded 201 (lit "ok")) (sampleRequest textUrls))
      as (_ & _ & Hr & _).
    destruct (Hr {| code := 200;
                    envelope := {| envMessage := lit "forwarded";
                                   envStatus := Some 201%Z;
                                   envDetails := None;
                                   envBody := Some (JStr (lit "ok")) |} |}
                 eq_refl) as (_ & _ & _ & H200).
    exact (H200 eq_refl).
  - apply (proj1 (proj2 (POST_outcomes (platform := samplePlatform2)
                           (Some sampleWebhook) sampleNow
                           (λ _ _, Responded 201 (lit "ok"))
                           (sampleRequest textHostileUrls)))
             (typeErrorMessage (Platform := samplePlatform2))).
    reflexivity.
Defined.

Lemma relay_forwards_submission_witness :
  snd (POST (platform := samplePlatform2) (Some sampleWebhook)
         (lit "2026-02-02T00:00:00.000Z") (λ _ _, Responded 200 (lit "ok"))
         (sampleRequest textSubmission))
  = [(sampleWebhook,
      {| app := lit "Next Asia Link"; urls := [lit "https://example.com"];
         meta_created_at := sampleNow; meta_user_agent := lit "curl/8";
         meta_ip_hint := [] |})].
Proof.
  assert (Hb : JSON_parse (Platform := samplePlatform2)
                 (reqBody (sampleRequest textSubmission))
               = Some (submissionJson sampleSubmission)) by reflexivity.
  assert (Hne : subUrls sampleSubmission ≠ []) by discriminate.
  rewrite (proj1 (proj1 (relay_forwards_submission
                           (platform := samplePlatform2)
                           sampleWebhook (lit "2026-02-02T00:00:00.000Z")
                           (λ _ _, Responded 200 (lit "ok"))
                           (sampleRequest textSubmission)
                           sampleSubmission eq_refl Hb) Hne)).
  reflexivity.
Defined.

Lemma paste_then_urls_witness :
  urlsOf (rows (snd (onPaste 0 (lit "x.com,y.com") twoRows)))
  = urlsOf [ {| id := randomId 0; url := [] |} ]
    ++ map normalizeUrl (pasteParts (lit "x.com,y.com")).
Proof.
  apply (paste_then_urls 0 (lit "x.com,y.com") twoRows
           [ {| id := randomId 0; url := [] |} ]
           {| id := randomId 1; url := [] |}).
  - simpl. lia.
  - reflexivity.
Defined.

Lemma isFatal_on_validate_witness :
  isFatal Japanese (lit "(1) URL形式が壊れてる: https://not a url") = true.
Proof.
  apply (isFatal_on_validate Japanese
           (rows (setUrl (randomId 0) (lit "not a url") initialState))).
  - apply list_elem_of_here.
  - discriminate.
Defined.
